(** * EntityREST: request-to-entity-operation pipeline

    A shallow embedding of [src/EntityREST.js]: the query-string filter
    translator, the candidate construction of the update handlers, the
    lifecycle handlers and the express middleware adapter, with the
    properties stated about them. *)

From Stdlib Require Import ZArith Lia Ascii String.
From stdpp Require Import base option list strings gmap pretty.

Local Open Scope Z_scope.
Local Open Scope string_scope.
Local Set Warnings "-register-all".

(** ** JavaScript values *)

(** Numbers are NaN or an integer; the handlers only produce and compare
    integers ([parseInt], [Math.min], status codes, sort directions).
    Integers are exact: the rounding of doubles beyond 2^53 is not
    modelled. *)
Inductive jsnum : Type :=
| NaN
| Int (z : Z).

(** Values that travel through the handlers.  Strings are sequences of
    8-bit characters.  Objects are finite maps from property names to
    values; a property whose value is [VUndefined] is present in the object
    (as in [{ _links: undefined }]).  The order of the keys of an object is
    not kept.  A regular expression keeps the arguments of its constructor. *)
Inductive jsval : Type :=
| VUndefined
| VNull
| VBool (b : bool)
| VNum (n : jsnum)
| VStr (s : string)
| VArr (items : list jsval)
| VObj (props : gmap string jsval)
| VRegExp (source flags : string).

#[global] Instance jsval_inhabited : Inhabited jsval := populate VUndefined.

(** Truthiness, as in [if (v)], [v && ...] and [v || ...]. *)
Definition truthy (v : jsval) : bool :=
  match v with
  | VUndefined | VNull => false
  | VBool b => b
  | VNum NaN => false
  | VNum (Int z) => negb (Z.eqb z 0)
  | VStr s => negb (String.eqb s "")
  | VArr _ | VObj _ | VRegExp _ _ => true
  end.

(** [_.isUndefined]. *)
Definition isUndefined (v : jsval) : bool :=
  match v with VUndefined => true | _ => false end.

(** [typeof v === 'string']. *)
Definition isString (v : jsval) : bool :=
  match v with VStr _ => true | _ => false end.

(** [Array.isArray]. *)
Definition isArray (v : jsval) : bool :=
  match v with VArr _ => true | _ => false end.

(** Property read [o.k]: [undefined] when the property is missing. *)
Definition getProp (m : gmap string jsval) (k : string) : jsval :=
  default VUndefined (m !! k).

(** The index keys ["0"], ["1"], ... of an array or a string. *)
Definition indexed {A} (f : A → jsval) (l : list A) : gmap string jsval :=
  list_to_map (imap (λ i x, (pretty (N.of_nat i), f x)) l).

Fixpoint chars (s : string) : list string :=
  match s with
  | EmptyString => []
  | String c r => String c EmptyString :: chars r
  end.

(** The own enumerable properties of a value, as copied by object spread
    [{...v}] and enumerated by lodash's [omitBy]. *)
Definition ownProps (v : jsval) : gmap string jsval :=
  match v with
  | VObj m => m
  | VArr l => indexed id l
  | VStr s => indexed VStr (chars s)
  | _ => ∅
  end.

(** [_.omitBy(_.isUndefined, v)]. *)
Definition omitUndefined (v : jsval) : gmap string jsval :=
  filter (λ kv, isUndefined kv.2 = false) (ownProps v).

(** ** Errors and fallible calls *)

(** A thrown [Error]: its [message], and the [details] and [status]
    properties the pipeline reads ([undefined] when not set). *)
Record jserror : Type := MkError {
  message : string;
  details : jsval;
  status : jsval
}.

(** [new Error(msg)]. *)
Definition newError (msg : string) : jserror :=
  MkError msg VUndefined VUndefined.

Inductive outcome (A : Type) : Type :=
| Return (a : A)
| Throw (e : jserror).
Arguments Return {A} a.
Arguments Throw {A} e.

#[global] Instance outcome_ret : MRet outcome := λ A a, Return a.
#[global] Instance outcome_bind : MBind outcome := λ A B f x,
  match x with
  | Return a => f a
  | Throw e => Throw e
  end.

#[global] Instance outcome_fmap : FMap outcome := λ A B f x,
  match x with
  | Return a => Return (f a)
  | Throw e => Throw e
  end.

(** ** Regular expressions of the source *)

(** [.] matches any character except a line terminator. *)
Definition isLineTerminator (c : ascii) : bool :=
  (Ascii.eqb c "010" || Ascii.eqb c "013")%char.

Fixpoint noLineTerminator (s : string) : bool :=
  match s with
  | EmptyString => true
  | String c r => negb (isLineTerminator c) && noLineTerminator r
  end.

(** The sort pattern of [getMany]: start of input, an optional dash
    (group 1), any characters but line terminators (group 2), end of input.
    Gives groups 1 and 2 of the match.  The optional dash is greedy, so a
    leading dash is taken first; the alternative without it is tried when
    the rest cannot reach the end of the input. *)
Definition sortRegexp (s : string) : option (string * string) :=
  let plain := if noLineTerminator s then Some ("", s) else None in
  match s with
  | String "-"%char f => if noLineTerminator f then Some ("-", f) else plain
  | _ => plain
  end.

(** The alternatives of [(g|i|m|u|y)]. *)
Definition isFlag (c : ascii) : bool :=
  (Ascii.eqb c "g" || Ascii.eqb c "i" || Ascii.eqb c "m"
   || Ascii.eqb c "u" || Ascii.eqb c "y")%char.

Fixpoint allFlags (s : string) : bool :=
  match s with
  | EmptyString => true
  | String c r => isFlag c && allFlags r
  end.

(** A group under a star keeps its last iteration: group 2 of
    [(g|i|m|u|y)*] is the last flag matched, [undefined] when there is none. *)
Fixpoint lastFlag (s : string) : jsval :=
  match s with
  | EmptyString => VUndefined
  | String c EmptyString => VStr (String c EmptyString)
  | String _ r => lastFlag r
  end.

(** All ways of cutting [s] in two, the longest first part first: the order
    in which a greedy dot-star group gives characters back. *)
Fixpoint cuts (s : string) : list (string * string) :=
  match s with
  | EmptyString => [(EmptyString, EmptyString)]
  | String c r =>
      ((λ p, (String c p.1, p.2)) <$> cuts r) ++ [(EmptyString, s)]
  end.

(** What follows group 1 in the pattern of [filterConditions]: a slash,
    then flags up to the end of the input.  Gives the flags. *)
Definition closingFlags (rest : string) : option string :=
  match rest with
  | String "/"%char fl => if allFlags fl then Some fl else None
  | _ => None
  end.

(** The pattern of [filterConditions]: start of input, a slash, any
    characters but line terminators (group 1), a slash, any number of
    flags [g], [i], [m], [u], [y] (group 2), end of input.  Gives groups 1
    and 2 of the match of [s]. *)
Definition regexpSyntax (s : string) : option (string * jsval) :=
  match s with
  | String "/"%char r =>
      match list_find (λ p, noLineTerminator p.1 = true
                            ∧ is_Some (closingFlags p.2)) (cuts r) with
      | Some (_, (body, rest)) =>
          fl ← closingFlags rest; Some (body, lastFlag fl)
      | None => None
      end
  | _ => None
  end.

(** ** Conversions and number built-ins *)

(** [String(v)], as applied by [parseInt] to its argument. *)
Fixpoint toString (v : jsval) : string :=
  match v with
  | VUndefined => "undefined"
  | VNull => "null"
  | VBool true => "true"
  | VBool false => "false"
  | VNum NaN => "NaN"
  | VNum (Int z) => pretty z
  | VStr s => s
  | VArr l =>
      let item x :=
        match x with VUndefined | VNull => "" | _ => toString x end in
      (fix join (l : list jsval) : string :=
         match l with
         | [] => ""
         | [x] => item x
         | x :: r => item x ++ "," ++ join r
         end) l
  | VObj _ => "[object Object]"
  | VRegExp src fl => "/" ++ src ++ "/" ++ fl
  end.

(** White space skipped by [parseInt] (tab, line feed, vertical tab, form
    feed, carriage return, space, no-break space). *)
Definition isWhiteSpace (c : ascii) : bool :=
  let n := N_of_ascii c in
  ((9 <=? n) && (n <=? 13) || (n =? 32) || (n =? 160))%N.

Fixpoint trimStart (s : string) : string :=
  match s with
  | String c r => if isWhiteSpace c then trimStart r else s
  | EmptyString => s
  end.

(** The value of a digit in radix up to 36. *)
Definition digitValue (c : ascii) : option Z :=
  let n := Z.of_N (N_of_ascii c) in
  if ((48 <=? n) && (n <=? 57))%Z then Some (n - 48)
  else if ((97 <=? n) && (n <=? 122))%Z then Some (n - 87)
  else if ((65 <=? n) && (n <=? 90))%Z then Some (n - 55)
  else None.

(** The longest prefix of digits of the radix, as a number; [None] when the
    prefix is empty. *)
Fixpoint parseDigits (radix : Z) (s : string) (acc : option Z) : option Z :=
  match s with
  | EmptyString => acc
  | String c r =>
      match digitValue c with
      | Some d =>
          if (d <? radix)%Z
          then parseDigits radix r (Some (default 0 acc * radix + d))
          else acc
      | None => acc
      end
  end.

(** [parseInt(s)] without a radix argument: white space, a sign, a [0x]
    prefix selecting radix 16, then digits. *)
Definition parseIntString (s : string) : jsnum :=
  let s1 := trimStart s in
  let '(sign, s2) :=
    match s1 with
    | String "-"%char r => (-1, r)
    | String "+"%char r => (1, r)
    | _ => (1, s1)
    end in
  let '(radix, s3) :=
    match s2 with
    | String "0"%char (String "x"%char r) => (16, r)
    | String "0"%char (String "X"%char r) => (16, r)
    | _ => (10, s2)
    end in
  match parseDigits radix s3 None with
  | Some n => Int (sign * n)
  | None => NaN
  end.

Definition parseInt (v : jsval) : jsnum := parseIntString (toString v).

(** [Math.min(a, b)] on numbers. *)
Definition mathMin (a b : jsnum) : jsnum :=
  match a, b with
  | Int x, Int y => Int (Z.min x y)
  | _, _ => NaN
  end.

(** [a || b]. *)
Definition jsOr (a b : jsval) : jsval := if truthy a then a else b.

(** ** Calls observed during a run *)

(** The collaborators' operations a run can invoke. *)
Inductive method : Type :=
| MFindById | MFind | MCreateOne | MUpdateOne | MReplaceOne | MDeleteOne
| MExportOne | MExportMany | MPrepareCreate | MPrepareUpdate
| MShouldCreate | MShouldUpdate | MShouldDelete
| MDidCreate | MDidUpdate | MDidDelete
| MResetReadOnly | MAssertValid
| MSpecQuery | MSpecSet | MAuthenticate | MValidate
| MRespond | MResJson | MResSend | MNext.

#[global] Instance method_eq_dec : EqDecision method.
Proof. solve_decision. Defined.

(** One call: the operation, its arguments and how it ended. *)
Record event : Type := Event {
  ev_method : method;
  ev_args : list jsval;
  ev_result : outcome jsval
}.

(** The request view built by the middleware. *)
Record Request : Type := MkRequest {
  urlParams : gmap string jsval;
  query : gmap string jsval;
  body : jsval;
  user : jsval
}.

(** The request as a value, for the trace. *)
Definition requestVal (r : Request) : jsval :=
  VObj (<["urlParams" := VObj (urlParams r)]>
       (<["query" := VObj (query r)]>
       (<["body" := body r]>
       (<["user" := user r]> ∅)))).

(** The error specification handed to [Sert] and [assertValid]. *)
Definition errorSpec (st : Z) (msg : string) : jsval :=
  VObj (<["status" := VNum (Int st)]> (<["message" := VStr msg]> ∅)).

(** The error [Sert] throws for an error specification. *)
Definition specError (st : Z) (msg : string) : jserror :=
  MkError msg VUndefined (VNum (Int st)).

(** [Sert.string(v, spec)] of the sert-schema library: passes for a string,
    throws an error built from [spec] otherwise. *)
Definition Sert_string (v : jsval) (st : Z) (msg : string) : outcome unit :=
  if isString v then Return () else Throw (specError st msg).

(** [Sert.object(v, spec)] of the sert-schema library: passes for an
    object, throws an error built from [spec] otherwise. *)
Definition Sert_object (v : jsval) (st : Z) (msg : string) : outcome unit :=
  match v with
  | VObj _ => Return ()
  | _ => Throw (specError st msg)
  end.

(** [x > 0] for a number. *)
Definition gtZero (n : jsnum) : bool :=
  match n with
  | Int z => (0 <? z)%Z
  | NaN => false
  end.

(** [Number(e)] for an [Error] object [e]: its string form, the name, a
    colon and the message, is not a numeric literal. *)
Definition errorToNumber (e : jserror) : jsnum := NaN.

(** ** The filter translation as the specification words it *)

(** A value of the shape slash, pattern, slash, flags: the pattern and all
    its flags.  The pattern is as long as possible and holds no line
    terminator; the flags are among [g], [i], [m], [u], [y]. *)
Definition regexpShape (s : string) : option (string * string) :=
  match s with
  | String "/"%char r =>
      match list_find (λ p, noLineTerminator p.1 = true
                            ∧ is_Some (closingFlags p.2)) (cuts r) with
      | Some (_, (body, rest)) => fl ← closingFlags rest; Some (body, fl)
      | None => None
      end
  | _ => None
  end.

(** Following the specification's words: the condition for a string value
    [s] of a query key.  ["undefined"] asks for the field to be absent,
    ["true"] and ["false"] give the boolean, a delimited pattern gives a
    set membership over one compiled pattern with its flags, anything else
    is compared as a string. *)
Definition specCondition (s : string) : jsval :=
  if String.eqb s "undefined" then VObj {[ "$exists" := VBool false ]}
  else if String.eqb s "true" then VBool true
  else if String.eqb s "false" then VBool false
  else match regexpShape s with
       | Some (src, fl) => VObj {[ "$in" := VArr [VRegExp src fl] ]}
       | None => VStr s
       end.

(** Following the specification's words: keys with an undefined value are
    skipped, a string value gives its condition. *)
Definition specTranslate (v : jsval) : option jsval :=
  match v with
  | VStr s => Some (specCondition s)
  | _ => None
  end.

(** ** The update candidate as the specification words it *)


(** The same with every key of the [set] result overriding, an
    undefined-valued one too. *)
Definition mergedCandidate (reset setProps id : jsval) : gmap string jsval :=
  filter (λ kv, isUndefined kv.2 = false)
    (delete "_links" (delete "_embedded"
      (<["id" := id]> (ownProps setProps ∪ ownProps reset)))).

(** The event before the last one of a trace. *)
Definition beforeLast (tr : list event) : option event := last (removelast tr).

(** The calls that receive the candidate of an update. *)
Definition usesCandidate (m : method) : Prop :=
  m = MAssertValid ∨ m = MShouldUpdate ∨ m = MReplaceOne ∨ m = MUpdateOne.

Section Pipeline.

(** The state of everything outside the adapter: the storage behind the
    Entity collaborator and whatever the hooks keep. *)
Context {World : Type}.

(** [JSON.parse]. *)
Variable JSON_parse : jsval → outcome jsval.

(** Whether the engine accepts a pattern with the given flags argument. *)
Variable regexpCompiles : string → jsval → bool.

(** [jsonPatch.validate(patch, document)] of fast-json-patch: the first
    error found, [None] for [undefined]. *)
Variable jsonPatch_validate : jsval → jsval → option jserror.

(** [jsonPatch.applyPatch(document, patch)]: the [newDocument] of the
    result and, as the patch is applied in place, the value of [document]
    afterwards. *)
Variable jsonPatch_applyPatch : jsval → jsval → outcome (jsval * jsval).

(** [new RegExp(src, flags)]; the value keeps the constructor's arguments. *)
Definition newRegExp (src : string) (flags : jsval) : outcome jsval :=
  if regexpCompiles src flags
  then Return (VRegExp src (match flags with VStr f => f | _ => "" end))
  else Throw (newError "Invalid regular expression").

(** *** Filter translator *)

Definition isReserved (prop : string) : bool :=
  String.eqb prop "limit" || String.eqb prop "offset"
  || String.eqb prop "sort" || String.eqb prop "q".

(** The body of the reducer of [filterConditions], for the key [prop] with
    value [v = query[prop]]. *)
Definition filterStep (prop : string) (v : jsval)
    (conditions : gmap string jsval) : outcome (gmap string jsval) :=
  if isReserved prop then Return conditions
  else match v with
  | VUndefined => Return conditions
  | VStr s =>
      if String.eqb s "undefined"
      then Return (<[prop := VObj {["$exists" := VBool false]}]> conditions)
      else if String.eqb s "true"
      then Return (<[prop := VBool true]> conditions)
      else if String.eqb s "false"
      then Return (<[prop := VBool false]> conditions)
      else match regexpSyntax s with
      | Some (src, fl) =>
          re ← newRegExp src fl;
          Return (<[prop := VObj {["$in" := VArr [re]]}]> conditions)
      | None => Return (<[prop := VStr s]> conditions)
      end
  | _ => Throw (newError "query[prop].match is not a function")
  end.

(** [filterConditions(query)].  The keys are visited in the order of the
    map, which matters only for which error is raised when several values
    raise one. *)
Definition filterConditions (query : gmap string jsval) : outcome jsval :=
  if truthy (getProp query "q") then JSON_parse (getProp query "q")
  else VObj <$> map_fold (λ prop v acc, conditions ← acc; filterStep prop v conditions)
                         (Return ∅) query.

(** *** Effects *)

(** A call into a collaborator: it may change the world, and returns or
    throws.  An awaited call that rejects is a call that throws. *)
Definition ext (A : Type) : Type := World → outcome A * World.

(** A handler: threads the world and appends to the trace of calls. *)
Definition M (A : Type) : Type :=
  World * list event → outcome A * (World * list event).

#[global] Instance M_ret : MRet M := λ A a st, (Return a, st).
#[global] Instance M_bind : MBind M := λ A B f m st,
  match m st with
  | (Return a, st') => f a st'
  | (Throw e, st') => (Throw e, st')
  end.

Definition lift {A} (o : outcome A) : M A := λ st, (o, st).
Definition throw {A} (e : jserror) : M A := lift (Throw e).

(** Invoke a collaborator's operation and record the call. *)
Definition call (m : method) (args : list jsval) (f : ext jsval) : M jsval :=
  λ '(w, tr), let '(r, w') := f w in (r, (w', (tr ++ [Event m args r])%list)).

(** Run [m] and hand back how it ended instead of propagating a throw: the
    promise of an async callback. *)
Definition settle {A} (m : M A) : M (outcome A) :=
  λ st, let '(r, st') := m st in (Return r, st').

(** [Promise.all(items.map(f))] where the calls of [f] happen while mapping:
    every call is made, and the result rejects with the first error. *)
Definition promiseAllMap {A B} (f : A → M B) (items : list A) : M (list B) :=
  rs ← mapM (λ x, settle (f x)) items;
  lift (mapM id rs).

Definition run {A} (m : M A) (w : World) : outcome A * (World * list event) :=
  m (w, []).
Definition result {A} (m : M A) (w : World) : outcome A := (run m w).1.
Definition trace {A} (m : M A) (w : World) : list event := (run m w).2.2.

(** *** Collaborators *)

(** The Entity collaborator; [Entity_f] is the property [Entity.f].  An
    optional hook is [None] when the property is not set. *)
Record EntityT : Type := MkEntity {
  Entity_findById : jsval → ext jsval;
  Entity_find : jsval → jsval → ext jsval;
  Entity_createOne : jsval → ext jsval;
  Entity_updateOne : jsval → ext jsval;
  Entity_replaceOne : jsval → ext jsval;
  Entity_deleteOne : jsval → ext jsval;
  Entity_exportOne : option (jsval → ext jsval);
  Entity_exportMany : option (jsval → ext jsval);
  Entity_prepareCreate : option (jsval → ext jsval);
  Entity_prepareUpdate : option (jsval → ext jsval);
  Entity_shouldCreate : option (jsval → Request → ext jsval);
  Entity_shouldUpdate : option (jsval → Request → ext jsval);
  Entity_shouldDelete : option (jsval → Request → ext jsval);
  Entity_didCreate : option (jsval → ext jsval);
  Entity_didUpdate : option (jsval → ext jsval);
  Entity_didDelete : option (jsval → ext jsval);
  Entity_resetReadOnly : jsval → jsval → ext jsval;
  Entity_assertValid : jsval → jsval → ext jsval
}.

(** The endpoint specification. *)
Record SpecT : Type := MkSpec {
  authenticate : option (Request → ext jsval);
  validate : option (Request → ext jsval);
  specQuery : option (Request → ext jsval);
  specSet : option (Request → ext jsval)
}.

(** The [respond] function handed to a handler: status and data. *)
Definition Respond : Type := jsval → jsval → M jsval.

(** A [respond] that only records the call. *)
Definition respondLog : Respond :=
  λ st data, call MRespond [st; data] (λ w, (Return VUndefined, w)).

(** [(f || _.identity)(v)]. *)
Definition orIdentity (m : method) (f : option (jsval → ext jsval))
    (v : jsval) : M jsval :=
  match f with
  | Some g => call m [v] (g v)
  | None => mret v
  end.

(** [(f || _.stubObject)(request)]. *)
Definition orStubObject (m : method) (f : option (Request → ext jsval))
    (request : Request) : M jsval :=
  match f with
  | Some g => call m [requestVal request] (g request)
  | None => mret (VObj ∅)
  end.

(** [g && await g(v, request)]. *)
Definition guard (m : method) (g : option (jsval → Request → ext jsval))
    (v : jsval) (request : Request) : M jsval :=
  match g with
  | Some h => call m [v; requestVal request] (h v request)
  | None => mret VUndefined
  end.

(** [d && d(v)]. *)
Definition notify (m : method) (d : option (jsval → ext jsval))
    (v : jsval) : M jsval :=
  match d with
  | Some h => call m [v] (h v)
  | None => mret VUndefined
  end.

(** [v.k]: reading a property of [undefined] or [null] throws. *)
Definition readProp (v : jsval) (k : string) : outcome jsval :=
  match v with
  | VUndefined | VNull => Throw (newError "Cannot read properties")
  | _ => Return (getProp (ownProps v) k)
  end.

(** *** Handlers *)

Definition status200 : jsval := VNum (Int 200).
Definition invalidProps : jsval := errorSpec 400 "Invalid entity properties.".

(** [EntityREST.getOne]. *)
Definition getOne (request : Request) (respond : Respond) (spec : SpecT)
    (Entity : EntityT) : M jsval :=
  let entityId := getProp (urlParams request) "entityId" in
  lift (Sert_string entityId 400 "Entity id is required.");;
  entity ← call MFindById [entityId] (Entity_findById Entity entityId);
  exportEntity ← orIdentity MExportOne (Entity_exportOne Entity) entity;
  respond status200 exportEntity.

(** The [limit] of [getMany]. *)
Definition limitOf (query : gmap string jsval) : jsnum :=
  mathMin (parseInt (jsOr (getProp query "limit") (VNum (Int 25)))) (Int 500).

(** The [sort] of [getMany]: [sortMatch] is the falsy [query.sort] itself
    or the match of the sort pattern; [match] exists on strings only. *)
Definition sortOf (query : gmap string jsval) : outcome (gmap string jsval) :=
  let sort := getProp query "sort" in
  sortMatch ←
    (if truthy sort
     then match sort with
          | VStr s => Return (sortRegexp s)
          | _ => Throw (newError "match is not a function")
          end
     else Return None);
  Return match sortMatch with
         | Some (g1, g2) =>
             {[ g2 := VNum (Int (if String.eqb g1 "-" then -1 else 1)) ]}
         | None => {[ "_id" := VNum (Int 1) ]}
         end.

(** The [skip] of [getMany]. *)
Definition skipOf (query : gmap string jsval) : jsval :=
  jsOr (VNum (parseInt (getProp query "offset"))) (VNum (Int 0)).

(** The filter handed to [Entity.find]: the translated query, then the
    endpoint's own conditions on top. *)
Definition findFilter (request : Request) (spec : SpecT) : M jsval :=
  conditions ← lift (filterConditions (query request));
  extra ← orStubObject MSpecQuery (specQuery spec) request;
  mret (VObj (ownProps extra ∪ ownProps conditions)).

(** The [exportEntities] of [getMany]: the batch exporter when there is
    one, else each entity through [exportOne] or the identity. *)
Definition exportAll (Entity : EntityT) (entities : jsval) : M jsval :=
  match Entity_exportMany Entity with
  | Some f => call MExportMany [entities] (f entities)
  | None =>
      match entities with
      | VArr items =>
          exported ← promiseAllMap (orIdentity MExportOne (Entity_exportOne Entity)) items;
          mret (VArr exported)
      | _ => throw (newError "entities.map is not a function")
      end
  end.

(** [EntityREST.getMany]. *)
Definition getMany (request : Request) (respond : Respond) (spec : SpecT)
    (Entity : EntityT) : M jsval :=
  let limit := limitOf (query request) in
  sort ← lift (sortOf (query request));
  let skip := skipOf (query request) in
  filter ← findFilter request spec;
  let options :=
    VObj (<["limit" := VNum limit]>
         (<["skip" := skip]>
         (<["sort" := VObj sort]> ∅))) in
  entities ← call MFind [filter; options] (Entity_find Entity filter options);
  exportEntities ← exportAll Entity entities;
  respond status200 exportEntities.

(** [EntityREST.postOne]. *)
Definition postOne (request : Request) (respond : Respond) (spec : SpecT)
    (Entity : EntityT) : M jsval :=
  setProps ← orStubObject MSpecSet (specSet spec) request;
  prepared ← orIdentity MPrepareCreate (Entity_prepareCreate Entity)
    (VObj (<["_links" := VUndefined]>
          (<["_embedded" := VUndefined]>
          (ownProps setProps ∪ ownProps (body request)))));
  let createProps := omitUndefined prepared in
  let checked :=
    VObj (createProps ∪ {[ "id" := VStr "123456789012345678901234" ]}) in
  call MAssertValid [checked; invalidProps]
       (Entity_assertValid Entity checked invalidProps);;
  guard MShouldCreate (Entity_shouldCreate Entity) (VObj createProps) request;;
  entity ← call MCreateOne [VObj createProps] (Entity_createOne Entity (VObj createProps));
  exportEntity ← orIdentity MExportOne (Entity_exportOne Entity) entity;
  respond (VNum (Int 201)) exportEntity;;
  notify MDidCreate (Entity_didCreate Entity) entity.

(** The object literal of the update handlers: the reconciled properties,
    the endpoint's [set] result on top, then [id], [_embedded], [_links]. *)
Definition updateLiteral (reset setProps id : jsval) : jsval :=
  VObj (<["_links" := VUndefined]>
       (<["_embedded" := VUndefined]>
       (<["id" := id]>
       (ownProps setProps ∪ ownProps reset)))).

(** The candidate of an update: reconcile, build the literal, prepare,
    drop the undefined properties. *)
Definition updateCandidate (Entity : EntityT) (incoming existing setProps : jsval)
    (id : outcome jsval) : M jsval :=
  reset ← call MResetReadOnly [incoming; existing]
                (Entity_resetReadOnly Entity incoming existing);
  i ← lift id;
  prepared ← orIdentity MPrepareUpdate (Entity_prepareUpdate Entity)
                (updateLiteral reset setProps i);
  mret (VObj (omitUndefined prepared)).

(** [EntityREST.putOne]. *)
Definition putOne (request : Request) (respond : Respond) (spec : SpecT)
    (Entity : EntityT) : M jsval :=
  let entityId := getProp (urlParams request) "entityId" in
  existingEntity ← call MFindById [entityId] (Entity_findById Entity entityId);
  lift (Sert_object existingEntity 404 "Resource not found.");;
  setProps ← orStubObject MSpecSet (specSet spec) request;
  replaceProps ← updateCandidate Entity (body request) existingEntity setProps
                    (Return entityId);
  call MAssertValid [replaceProps; invalidProps]
       (Entity_assertValid Entity replaceProps invalidProps);;
  guard MShouldUpdate (Entity_shouldUpdate Entity) replaceProps request;;
  entity ← call MReplaceOne [replaceProps] (Entity_replaceOne Entity replaceProps);
  exportEntity ← orIdentity MExportOne (Entity_exportOne Entity) entity;
  respond status200 exportEntity;;
  notify MDidUpdate (Entity_didUpdate Entity) exportEntity.

(** [patchErrors && patchErrors > 0] for the result of the validator. *)
Definition patchRejected (patchErrors : option jserror) : bool :=
  match patchErrors with
  | Some e => gtZero (errorToNumber e)
  | None => false
  end.

(** [EntityREST.patchOne]; both branches continue in the same way once the
    document to reconcile is known. *)
Definition patchOne (request : Request) (respond : Respond) (spec : SpecT)
    (Entity : EntityT) : M jsval :=
  let entityId := getProp (urlParams request) "entityId" in
  existingEntity ← call MFindById [entityId] (Entity_findById Entity entityId);
  lift (Sert_object existingEntity 404 "Resource not found.");;
  '(incoming, existing) ←
    (if isArray (body request)
     then
       let patchErrors := jsonPatch_validate (body request) existingEntity in
       if patchRejected patchErrors
       then throw (newError "Invalid patch")
       else lift (jsonPatch_applyPatch existingEntity (body request))
     else mret (body request, existingEntity));
  setProps ← orStubObject MSpecSet (specSet spec) request;
  updateProps ← updateCandidate Entity incoming existing setProps
                   (Return entityId);
  call MAssertValid [updateProps; invalidProps]
       (Entity_assertValid Entity updateProps invalidProps);;
  guard MShouldUpdate (Entity_shouldUpdate Entity) updateProps request;;
  entity ← call MUpdateOne [updateProps] (Entity_updateOne Entity updateProps);
  exportEntity ← orIdentity MExportOne (Entity_exportOne Entity) entity;
  respond status200 exportEntity;;
  notify MDidUpdate (Entity_didUpdate Entity) exportEntity.

(** The candidate of one record of [patchMany], validated. *)
Definition patchManyCandidate (request : Request) (Entity : EntityT)
    (setProps existingEntity : jsval) : M jsval :=
  updateProps ← updateCandidate Entity (body request) existingEntity setProps
                   (readProp existingEntity "id");
  call MAssertValid [updateProps; invalidProps]
       (Entity_assertValid Entity updateProps invalidProps);;
  mret updateProps.

(** The async callback of [patchMany] for one record. *)
Definition patchManyRecord (request : Request) (Entity : EntityT)
    (setProps existingEntity : jsval) : M jsval :=
  updateProps ← patchManyCandidate request Entity setProps existingEntity;
  guard MShouldUpdate (Entity_shouldUpdate Entity) updateProps request;;
  entity ← call MUpdateOne [updateProps] (Entity_updateOne Entity updateProps);
  orIdentity MExportOne (Entity_exportOne Entity) entity.

(** The same callback cut at its [await]s: a segment runs up to the call
    whose result is awaited.  Without a [shouldUpdate] hook there is no
    [await] between validation and the call of [updateOne]. *)
Definition patchManySegments (request : Request) (Entity : EntityT)
    (setProps : jsval) : list (jsval → M jsval) :=
  match Entity_shouldUpdate Entity with
  | Some g =>
      [ (λ existingEntity,
           updateProps ← patchManyCandidate request Entity setProps existingEntity;
           call MShouldUpdate [updateProps; requestVal request]
                (g updateProps request);;
           mret updateProps);
        (λ updateProps, call MUpdateOne [updateProps] (Entity_updateOne Entity updateProps));
        orIdentity MExportOne (Entity_exportOne Entity) ]
  | None =>
      [ (λ existingEntity,
           updateProps ← patchManyCandidate request Entity setProps existingEntity;
           call MUpdateOne [updateProps] (Entity_updateOne Entity updateProps));
        orIdentity MExportOne (Entity_exportOne Entity) ]
  end.

(** One round of the callbacks started by [map]: each callback still
    running executes its next segment, in the order of the records.  A
    callback that throws is dropped; [rejected] keeps the first error. *)
Fixpoint round (f : jsval → M jsval) (slots : list (option jsval))
    (rejected : option jserror) : M (list (option jsval) * option jserror) :=
  match slots with
  | [] => mret ([], rejected)
  | None :: rest =>
      '(slots', rejected') ← round f rest rejected;
      mret (None :: slots', rejected')
  | Some x :: rest =>
      r ← settle (f x);
      match r with
      | Return y =>
          '(slots', rejected') ← round f rest rejected;
          mret (Some y :: slots', rejected')
      | Throw e =>
          '(slots', rejected') ← round f rest (Some (default e rejected));
          mret (None :: slots', rejected')
      end
  end.

(** The callbacks advance one [await] at a time, in step (the order in
    which they resume when every awaited call settles at once). *)
Fixpoint lockStep (segments : list (jsval → M jsval))
    (slots : list (option jsval)) (rejected : option jserror)
    : M (list (option jsval) * option jserror) :=
  match segments with
  | [] => mret (slots, rejected)
  | f :: segments' =>
      '(slots', rejected') ← round f slots rejected;
      lockStep segments' slots' rejected'
  end.

(** [EntityREST.patchMany].  [didUpdate] is mapped over the exported
    entities; the index and array arguments of [map] are left out. *)
Definition patchMany (request : Request) (respond : Respond) (spec : SpecT)
    (Entity : EntityT) : M jsval :=
  filter ← findFilter request spec;
  existingEntities ← call MFind [filter] (Entity_find Entity filter VUndefined);
  if negb (truthy existingEntities) then respond status200 VUndefined
  else
    setProps ← orStubObject MSpecSet (specSet spec) request;
    match existingEntities with
    | VArr records =>
        '(slots, rejected) ←
          lockStep (patchManySegments request Entity setProps)
                   (Some <$> records) None;
        match rejected with
        | Some e => throw e
        | None =>
            let exportEntities := omap id slots in
            respond status200 (VArr exportEntities);;
            match Entity_didUpdate Entity with
            | Some d =>
                mapM (λ x, call MDidUpdate [x] (d x)) exportEntities;;
                mret VUndefined
            | None => mret VUndefined
            end
        end
    | _ => throw (newError "existingEntities.map is not a function")
    end.

(** [EntityREST.deleteOne]. *)
Definition deleteOne (request : Request) (respond : Respond) (spec : SpecT)
    (Entity : EntityT) : M jsval :=
  let entityId := getProp (urlParams request) "entityId" in
  entity ← call MFindById [entityId] (Entity_findById Entity entityId);
  lift (Sert_object entity 404 "Resource not found.");;
  guard MShouldDelete (Entity_shouldDelete Entity) entity request;;
  call MDeleteOne [entity] (Entity_deleteOne Entity entity);;
  respond status200 (VObj ∅);;
  notify MDidDelete (Entity_didDelete Entity) entity.

(** *** Middleware adapter *)

(** The parts of the transport request the middleware reads. *)
Record RawRequest : Type := MkRawRequest {
  req_params : jsval;
  req_query : jsval;
  req_body : jsval;
  req_user : jsval
}.

(** [typeof v === 'object']. *)
Definition isObjectType (v : jsval) : bool :=
  match v with
  | VNull | VArr _ | VObj _ | VRegExp _ _ => true
  | _ => false
  end.

(** A thrown error as a value, for the trace. *)
Definition errorVal (e : jserror) : jsval :=
  VObj (<["message" := VStr (message e)]>
       (<["details" := details e]>
       (<["status" := status e]> ∅))).

(** The [respond] closure of the middleware, with its default arguments. *)
Definition expressRespond : Respond := λ st data,
  let st := if isUndefined st then status200 else st in
  let data := if isUndefined data then VObj ∅ else data in
  if isObjectType data
  then call MResJson [st; data] (λ w, (Return VUndefined, w))
  else call MResSend [st; jsOr data (VStr "")] (λ w, (Return VUndefined, w)).

(** [try { m } catch (e) { h e }]. *)
Definition catch {A} (m : M A) (h : jserror → M A) : M A := λ st,
  match m st with
  | (Return a, st') => (Return a, st')
  | (Throw e, st') => h e st'
  end.

(** The inner [try] around [authenticate] and [validate]: an error with a
    status is thrown again, any other is replaced by a new error with the
    same message and details and the given status. *)
Definition withStatus (st : Z) (m : M jsval) : M jsval :=
  catch m (λ e,
    if truthy (status e) then throw e
    else throw (MkError (message e) (details e) (VNum (Int st)))).

(** [x || {}] for [params] and [query], read as a property map. *)
Definition orEmpty (v : jsval) : gmap string jsval :=
  if truthy v then ownProps v else ∅.

(** The [request] object the middleware builds from the transport request. *)
Definition requestView (req : RawRequest) : Request :=
  MkRequest (orEmpty (req_params req)) (orEmpty (req_query req))
            (jsOr (req_body req) (VObj ∅)) (req_user req).

(** The middleware made by [EntityREST.express] for an endpoint function,
    run on one request.  The result is the argument given to [next]:
    [None] for [next()]. *)
Definition express
    (endpointFunction : Request → Respond → SpecT → EntityT → M jsval)
    (spec : SpecT) (Entity : EntityT) (req : RawRequest) : M (option jserror) :=
  let request := requestView req in
  catch
    ((match authenticate spec with
      | Some f => withStatus 401 (call MAuthenticate [requestVal request] (f request))
      | None => mret VUndefined
      end);;
     (match validate spec with
      | Some f => withStatus 400 (call MValidate [requestVal request] (f request))
      | None => mret VUndefined
      end);;
     endpointFunction request expressRespond spec Entity;;
     call MNext [] (λ w, (Return VUndefined, w));;
     mret None)
    (λ error,
       call MNext [errorVal error] (λ w, (Return VUndefined, w));;
       mret (Some error)).

(** *** Statements *)

Implicit Types (request : Request) (spec : SpecT)
  (Entity : EntityT) (w : World).

(** The calls of one operation in a trace. *)
Definition callsOf (m : method) (tr : list event) : list event :=
  filter (λ e, ev_method e = m) tr.

(** The options object handed to [Entity.find] by [getMany]. *)
Definition findOptions (query : gmap string jsval) (sort : gmap string jsval) : jsval :=
  VObj (<["limit" := VNum (limitOf query)]>
       (<["skip" := skipOf query]>
       (<["sort" := VObj sort]> ∅))).

(** [getMany] calls [Entity.find] once and the [sort] option is [sort]. *)
Definition findCalledWithSort request spec Entity w
    (sort : gmap string jsval) : Prop :=
  ∃ filter opts r,
    callsOf MFind
      (trace (getMany request respondLog spec Entity) w)
    = [Event MFind [filter; VObj opts] r]
    ∧ opts !! "sort" = Some (VObj sort).

(** [getMany] calls [Entity.find] once and the [limit] option is [limit]. *)
Definition findCalledWithLimit request spec Entity w (limit : jsnum) : Prop :=
  ∃ filter opts r,
    callsOf MFind
      (trace (getMany request respondLog spec Entity) w)
    = [Event MFind [filter; VObj opts] r]
    ∧ opts !! "limit" = Some (VNum limit).

(** The error with the status the middleware infers for it. *)
Definition inferStatus (st : Z) (e : jserror) : jserror :=
  MkError (message e) (details e) (VNum (Int st)).

(** The query values the translation is specified for: strings and
    [undefined], the delimited patterns among them with at most one flag
    and accepted by the engine. *)
Definition translatable (q : gmap string jsval) : Prop :=
  map_Forall (λ k v, isReserved k = false →
    v = VUndefined
    ∨ ∃ s, v = VStr s
           ∧ ∀ src fl, regexpShape s = Some (src, fl) →
               (String.length fl ≤ 1)%nat
               ∧ regexpCompiles src (lastFlag fl) = true) q.

(** The operations of [patchMany] outside the callbacks. *)
Definition outsideCallbacks (e : event) : Prop :=
  ev_method e = MSpecQuery ∨ ev_method e = MFind
  ∨ ev_method e = MSpecSet ∨ ev_method e = MRespond.

(** What the calls of an update handler receive, for the forced id [id]:
    [prepareUpdate] the object literal; without a [prepareUpdate] hook,
    validation, guard and storage the merged candidate. *)
Definition candidateEvent (Entity : EntityT) (id : jsval)
    (e : event) : Prop :=
  (ev_method e = MPrepareUpdate →
   ∃ reset setProps, ev_args e = [updateLiteral reset setProps id])
  ∧ (Entity_prepareUpdate Entity = None → usesCandidate (ev_method e) →
     ∃ reset setProps rest,
       ev_args e = VObj (mergedCandidate reset setProps id) :: rest).

(** The id of what a call of an update handler receives is [id]: for
    [prepareUpdate] always, for validation, guard and storage when there is
    no [prepareUpdate] hook. *)
Definition forcedId (Entity : EntityT) (id : jsval)
    (e : event) : Prop :=
  (ev_method e = MPrepareUpdate →
   ∃ m, ev_args e = [VObj m] ∧ getProp m "id" = id)
  ∧ (Entity_prepareUpdate Entity = None → usesCandidate (ev_method e) →
     ∃ m rest, ev_args e = VObj m :: rest ∧ getProp m "id" = id).



(** [(spec.set || _.stubObject)(request)] called in the world [w] returns
    [setProps] and leaves the world [w']. *)
Definition setReturns (spec : SpecT) (request : Request) (w : World)
    (setProps : jsval) (w' : World) : Prop :=
  match specSet spec with
  | Some f => f request w = (Return setProps, w')
  | None => setProps = VObj ∅ ∧ w' = w
  end.




(** The guard call that threw ends the trace, and no storage call of the
    kind [mutateM] was made. *)
Definition rejectedBy (guardM mutateM : method) (tr : list event)
    (props req : jsval) (e : jserror) : Prop :=
  callsOf mutateM tr = []
  ∧ last tr = Some (Event guardM [props; req] (Throw e)).

(** The call before the last one is a validation of [checked] that passed. *)
Definition validatedBefore (tr : list event) (checked : jsval) : Prop :=
  ∃ r, beforeLast tr = Some (Event MAssertValid [checked; invalidProps] (Return r)).

(** Neither the guard nor the storage call. *)
Definition quiet (guardM mutateM : method) (e : event) : Prop :=
  ev_method e ≠ guardM ∧ ev_method e ≠ mutateM.

(** What holds of a trace in which the guard threw; [V] is what is known
    of the validation. *)
Definition guardOutcome (guardM mutateM : method)
    (V : list event → jsval → Prop) (tr : list event) : Prop :=
  ∀ props req e,
    Event guardM [props; req] (Throw e) ∈ tr →
    rejectedBy guardM mutateM tr props req e ∧ V tr props.

(** The validated object of [postOne] for the candidate [props]. *)
Definition withPlaceholderId (props : jsval) : jsval :=
  VObj (ownProps props ∪ {[ "id" := VStr "123456789012345678901234" ]}).

End Pipeline.

(** ** Response shaper *)

(** [s.slice(-1)]: the last character of [s], empty for the empty string. *)
Fixpoint lastChar (s : string) : string :=
  match s with
  | EmptyString => EmptyString
  | String c EmptyString => s
  | String _ r => lastChar r
  end.

(** [EntityREST.exportHAL(url, Entity, data)]; of [Entity] only the
    property [pluralName] is read.  For an array: the self link of the
    collection, the count and the array under the plural name.  For anything
    else: the properties of [data] with the self link of the record, whose
    [data.id] cannot be read from [null] or [undefined]. *)
Definition exportHAL (url : string) (pluralName : jsval) (data : jsval)
    : outcome jsval :=
  match data with
  | VArr items =>
      let name := toString (jsOr pluralName (VStr "data")) in
      let href :=
        url ++ (if negb (String.eqb (lastChar url) "/") then "/" else "")
            ++ name ++ "/" in
      Return (VObj (<["_embedded" := VObj {[ name := data ]}]>
                   (<["count" := VNum (Int (Z.of_nat (length items)))]>
                   (<["_links" := VObj {[ "self" := VObj {[ "href" := VStr href ]} ]}]>
                    ∅))))
  | _ =>
      id ← readProp data "id";
      let href := url ++ "/" ++ toString pluralName ++ "/" ++ toString id in
      Return (VObj (<["_links" := VObj {[ "self" := VObj {[ "href" := VStr href ]} ]}]>
                    (ownProps data)))
  end.

(** [exportHAL(url, Entity)] as the [exportOne] hook of an Entity. *)
Definition exportHALHook {World : Type} (url : string) (pluralName : jsval)
    : jsval → ext (World:=World) jsval :=
  λ data w, (exportHAL url pluralName data, w).

(** ** The filter translator of the earlier revision *)

Module Earlier.

(** The body of the reducer of the earlier [filterConditions]: no key is
    reserved. *)
Definition filterStep (regexpCompiles : string → jsval → bool)
    (prop : string) (v : jsval) (conditions : gmap string jsval)
    : outcome (gmap string jsval) :=
  match v with
  | VUndefined => Return conditions
  | VStr s =>
      if String.eqb s "undefined"
      then Return (<[prop := VObj {["$exists" := VBool false]}]> conditions)
      else if String.eqb s "true"
      then Return (<[prop := VBool true]> conditions)
      else if String.eqb s "false"
      then Return (<[prop := VBool false]> conditions)
      else match regexpSyntax s with
      | Some (src, fl) =>
          re ← newRegExp regexpCompiles src fl;
          Return (<[prop := VObj {["$in" := VArr [re]]}]> conditions)
      | None => Return (<[prop := VStr s]> conditions)
      end
  | _ => Throw (newError "query[prop].match is not a function")
  end.

(** The earlier [filterConditions(query)]: every key is translated and
    there is no [q]. *)
Definition filterConditions (regexpCompiles : string → jsval → bool)
    (query : gmap string jsval) : outcome jsval :=
  VObj <$> map_fold (λ prop v acc, conditions ← acc;
                                   filterStep regexpCompiles prop v conditions)
                    (Return ∅) query.

End Earlier.

(** ** Collaborators used in the examples *)

(** A collaborator call that returns [v] and leaves the world alone. *)
Definition returns (v : jsval) : ext (World:=unit) jsval := λ w, (Return v, w).

(** A collaborator call that throws [e]. *)
Definition throws (e : jserror) : ext (World:=unit) jsval := λ w, (Throw e, w).

(** An Entity over a store where [findById] returns [record] and [find]
    returns [found]; storage calls return their argument, [resetReadOnly]
    returns the incoming value, validation passes.  The three guards are
    [hook]; there is no other optional hook. *)
Definition exampleEntity (record found : jsval)
    (hook : option (jsval → Request → ext (World:=unit) jsval))
    : EntityT (World:=unit) := {|
  Entity_findById := λ _, returns record;
  Entity_find := λ _ _, returns found;
  Entity_createOne := returns;
  Entity_updateOne := returns;
  Entity_replaceOne := returns;
  Entity_deleteOne := λ _, returns VUndefined;
  Entity_exportOne := None;
  Entity_exportMany := None;
  Entity_prepareCreate := None;
  Entity_prepareUpdate := None;
  Entity_shouldCreate := hook;
  Entity_shouldUpdate := hook;
  Entity_shouldDelete := hook;
  Entity_didCreate := None;
  Entity_didUpdate := None;
  Entity_didDelete := None;
  Entity_resetReadOnly := λ incoming _, returns incoming;
  Entity_assertValid := λ _ _, returns VUndefined
|}.

(** Nothing stored, no guard. *)
Definition plainEntity : EntityT (World:=unit) :=
  exampleEntity VNull (VArr []) None.

(** [record] stored under every id, no guard. *)
Definition storedEntity (record : jsval) : EntityT (World:=unit) :=
  exampleEntity record (VArr [record]) None.

(** [record] stored under every id, every guard throwing [e]. *)
Definition guardedEntity (record : jsval) (e : jserror) : EntityT (World:=unit) :=
  exampleEntity record (VArr [record]) (Some (λ _ _, throws e)).

(** A stored widget, a JSON-Patch replacing a property it does not have,
    the error the validator reports for it, and the document the patch
    yields when applied without validation. *)
Definition widget : jsval :=
  VObj {[ "id" := VStr "42"; "name" := VStr "a" ]}.
Definition badPatch : jsval :=
  VArr [VObj {[ "op" := VStr "replace"; "path" := VStr "/missing";
                "value" := VNum (Int 1) ]}].
Definition unresolvable : jserror := newError "OPERATION_PATH_UNRESOLVABLE".
Definition widgetPatched : jsval :=
  VObj {[ "id" := VStr "42"; "name" := VStr "a"; "missing" := VNum (Int 1) ]}.

(** An endpoint specification whose [set] returns [v]. *)
Definition settingSpec (v : jsval) : SpecT (World:=unit) := {|
  authenticate := None;
  validate := None;
  specQuery := None;
  specSet := Some (λ _, returns v)
|}.

(** An endpoint specification with no field set. *)
Definition plainSpec : SpecT (World:=unit) := {|
  authenticate := None;
  validate := None;
  specQuery := None;
  specSet := None
|}.

(** A [JSON.parse] that rejects every input, and an engine that accepts
    every pattern. *)
Definition noJSON : jsval → outcome jsval :=
  λ _, Throw (newError "Unexpected token").
Definition anyRegexp : string → jsval → bool := λ _ _, true.

(** Endpoint specifications whose [authenticate], or [validate], throws. *)
Definition rejecting (e : jserror) : SpecT (World:=unit) := {|
  authenticate := Some (λ _, throws e);
  validate := None;
  specQuery := None;
  specSet := None
|}.
Definition invalidating (e : jserror) : SpecT (World:=unit) := {|
  authenticate := None;
  validate := Some (λ _, throws e);
  specQuery := None;
  specSet := None
|}.

Definition emptyRawRequest : RawRequest :=
  MkRawRequest VUndefined VUndefined VUndefined VUndefined.

Definition requestOf (params query : gmap string jsval) (body : jsval) : Request :=
  MkRequest params query body VUndefined.

(** An Entity as [exampleEntity] without guards, with [hook] as its
    [exportOne]. *)
Definition exportingEntity (record found : jsval)
    (hook : jsval → ext (World:=unit) jsval) : EntityT (World:=unit) := {|
  Entity_findById := λ _, returns record;
  Entity_find := λ _ _, returns found;
  Entity_createOne := returns;
  Entity_updateOne := returns;
  Entity_replaceOne := returns;
  Entity_deleteOne := λ _, returns VUndefined;
  Entity_exportOne := Some hook;
  Entity_exportMany := None;
  Entity_prepareCreate := None;
  Entity_prepareUpdate := None;
  Entity_shouldCreate := None;
  Entity_shouldUpdate := None;
  Entity_shouldDelete := None;
  Entity_didCreate := None;
  Entity_didUpdate := None;
  Entity_didDelete := None;
  Entity_resetReadOnly := λ incoming _, returns incoming;
  Entity_assertValid := λ _ _, returns VUndefined
|}.

(** Widgets exported by the response shaper; [record] is what [findById]
    returns, [find] returns [found]. *)
Definition halEntity (record found : jsval) : EntityT (World:=unit) :=
  exportingEntity record found (exportHALHook "http://api" (VStr "widgets")).

(** An endpoint specification whose [query] returns [v]. *)
Definition queryingSpec (v : jsval) : SpecT (World:=unit) := {|
  authenticate := None;
  validate := None;
  specQuery := Some (λ _, returns v);
  specSet := None
|}.

(** A second widget, and an Entity whose [find] returns both. *)
Definition gadget : jsval :=
  VObj {[ "id" := VStr "43"; "name" := VStr "b" ]}.
Definition twoStored : EntityT (World:=unit) :=
  exampleEntity widget (VArr [widget; gadget]) None.

(** Requests of the examples: for the record 42 with an object body; with
    a query string; with a repeated query parameter, which arrives as an
    array. *)
Definition renameRequest : Request :=
  requestOf {[ "entityId" := VStr "42" ]} ∅ (VObj {[ "name" := VStr "c" ]}).
Definition pagedRequest : Request :=
  requestOf ∅ {[ "limit" := VStr "9999"; "offset" := VStr "10";
                 "owner" := VStr "you"; "name" := VStr "a" ]} VUndefined.
Definition repeatedRequest : Request :=
  requestOf ∅ {[ "tag" := VArr [VStr "a"; VStr "b"] ]} VUndefined.

(** The raw request of the middleware for the record 42. *)
Definition rawRequest42 : RawRequest :=
  MkRawRequest (VObj {[ "entityId" := VStr "42" ]}) VUndefined VUndefined
               VUndefined.

(** The JSON-Patch functions of the examples: a validator that reports
    nothing, an [applyPatch] that leaves the document as it is. *)
Definition noPatchErrors : jsval → jsval → option jserror := λ _ _, None.
Definition applyNothing : jsval → jsval → outcome (jsval * jsval) :=
  λ d _, Return (d, d).

(** ** Further statements *)

(** What [Sert.object] accepts. *)
Definition isObject (v : jsval) : bool :=
  match v with VObj _ => true | _ => false end.

(** The self link object of the response shaper. *)
Definition selfLink (href : string) : jsval :=
  VObj {[ "self" := VObj {[ "href" := VStr href ]} ]}.

(** The error of reading a property of [null] or [undefined]. *)
Definition cannotRead : jserror := newError "Cannot read properties".

(** The error raised when the record of the URL does not exist. *)
Definition notFound : jserror := specError 404 "Resource not found.".

(** The two checks of the middleware, in the order it runs them. *)
Definition expressChecks {World : Type} (spec : SpecT (World:=World))
    (request : Request) : M (World:=World) jsval :=
  (match authenticate spec with
   | Some f => withStatus 401 (call MAuthenticate [requestVal request] (f request))
   | None => mret VUndefined
   end);;
  (match validate spec with
   | Some f => withStatus 400 (call MValidate [requestVal request] (f request))
   | None => mret VUndefined
   end).

(** The call of [next]: without argument, or with the error. *)
Definition nextEvent (error : option jserror) : event :=
  Event MNext (match error with Some e => [errorVal e] | None => [] end)
        (Return VUndefined).

(** The error the middleware hands on for an error thrown by a check. *)
Definition forwarded (st : Z) (e : jserror) : jserror :=
  if truthy (status e) then e else inferStatus st e.

(** The merge of the endpoint's conditions [extra] over the translated
    conditions [conditions]: a key of [extra] keeps its value there. *)
Definition endpointOver (extra conditions : jsval) (m : gmap string jsval) : Prop :=
  ∀ k, m !! k = match ownProps extra !! k with
                | Some v => Some v
                | None => ownProps conditions !! k
                end.

(** The operations a callback of [patchMany] invokes. *)
Definition callbackMethods : list method :=
  [MResetReadOnly; MPrepareUpdate; MAssertValid; MShouldUpdate; MUpdateOne;
   MExportOne].

(** The candidate of a create: the body overridden by the [set] result,
    with [_embedded], [_links] and every undefined-valued key removed. *)
Definition createCandidate (body setProps : jsval) : gmap string jsval :=
  filter (λ kv, isUndefined kv.2 = false)
    (delete "_links" (delete "_embedded" (ownProps setProps ∪ ownProps body))).

(** What the calls of [postOne] receive when the candidate is [c]:
    validation the candidate over the placeholder id, guard and storage the
    candidate. *)
Definition createEvent (c : jsval) (e : event) : Prop :=
  (ev_method e = MAssertValid →
   ev_args e = [withPlaceholderId c; invalidProps])
  ∧ (ev_method e = MShouldCreate ∨ ev_method e = MCreateOne →
     ∃ rest, ev_args e = c :: rest).

(** [n || 0] for a number [n]: NaN and zero are falsy. *)
Definition orZero (n : jsnum) : jsnum :=
  match n with
  | Int z => Int z
  | NaN => Int 0
  end.

(** A number capped at 500; NaN stays NaN. *)
Definition capped (n : jsnum) : jsnum :=
  match n with
  | Int z => if (z <=? 500)%Z then Int z else Int 500
  | NaN => NaN
  end.

(** A notification call, when there is one, ends the run, comes right
    after the response, and its error is the error of the run. *)
Definition notifiedAfterResponse (didM : method)
    (res : outcome jsval) (tr : list event) : Prop :=
  ∀ v r,
    Event didM [v] r ∈ tr →
    last tr = Some (Event didM [v] r)
    ∧ (∃ st data, beforeLast tr = Some (Event MRespond [st; data] (Return VUndefined)))
    ∧ (∀ e, r = Throw e → res = Throw e).

(** The Entity with [f] as its [replaceOne]. *)
Definition withReplaceOne {World : Type} (Entity : EntityT (World:=World))
    (f : jsval → ext (World:=World) jsval) : EntityT (World:=World) :=
  MkEntity (Entity_findById Entity) (Entity_find Entity)
    (Entity_createOne Entity) (Entity_updateOne Entity) f
    (Entity_deleteOne Entity) (Entity_exportOne Entity)
    (Entity_exportMany Entity) (Entity_prepareCreate Entity)
    (Entity_prepareUpdate Entity) (Entity_shouldCreate Entity)
    (Entity_shouldUpdate Entity) (Entity_shouldDelete Entity)
    (Entity_didCreate Entity) (Entity_didUpdate Entity)
    (Entity_didDelete Entity) (Entity_resetReadOnly Entity)
    (Entity_assertValid Entity).

(** A call of [replaceOne] read as a call of [updateOne]. *)
Definition asUpdate (e : event) : event :=
  match ev_method e with
  | MReplaceOne => Event MUpdateOne (ev_args e) (ev_result e)
  | _ => e
  end.

(** [m1] runs as [m2] does, with [replaceOne] read as [updateOne]. *)
Definition asUpdateOf {World : Type} {A} (m1 m2 : M (World:=World) A) : Prop :=
  ∀ w tr,
    m1 (w, asUpdate <$> tr)
    = ((m2 (w, tr)).1, ((m2 (w, tr)).2.1, asUpdate <$> (m2 (w, tr)).2.2)).

(** The storage operations that write. *)
Definition isStorageWrite (m : method) : bool :=
  match m with
  | MCreateOne | MUpdateOne | MReplaceOne | MDeleteOne => true
  | _ => false
  end.

(** The call [e] writes to storage through [own] or not at all. *)
Definition writesThrough (own : option method) (e : event) : Prop :=
  isStorageWrite (ev_method e) = true → own = Some (ev_method e).

(** The operations of the middleware, which no handler invokes. *)
Definition isMiddlewareCall (m : method) : bool :=
  match m with
  | MAuthenticate | MValidate | MResJson | MResSend | MNext => true
  | _ => false
  end.

(** A call a handler may make when its storage write is [own]. *)
Definition handlerCall (own : option method) (e : event) : Prop :=
  writesThrough own e ∧ isMiddlewareCall (ev_method e) = false.

(** * Properties *)

(** Unfold the sequencing of a handler down to the collaborators' calls. *)
Ltac monad :=
  unfold mbind, M_bind, mret, M_ret, lift, throw, call, respondLog,
    orIdentity, orStubObject, guard, notify, settle, catch in *;
  cbn [fst snd app] in *.

Section Properties.

Context {World : Type}.
Variable JSON_parse : jsval → outcome jsval.
Variable regexpCompiles : string → jsval → bool.
Variable jsonPatch_validate : jsval → jsval → option jserror.
Variable jsonPatch_applyPatch : jsval → jsval → outcome (jsval * jsval).

Implicit Types (request : Request) (spec : SpecT (World:=World))
  (Entity : EntityT (World:=World)) (w : World).

(** *** Traces only grow *)

(** [emits P m]: running [m] appends events to the trace, all satisfying [P]. *)
Definition emits {A} (P : event → Prop) (m : M (World:=World) A) : Prop :=
  ∀ st, ∃ evs, (m st).2.2 = (st.2 ++ evs)%list ∧ Forall P evs.

(** [yields P Q m]: as [emits P m], and a returned value satisfies [Q]. *)
Definition yields {A} (P : event → Prop) (Q : A → Prop)
    (m : M (World:=World) A) : Prop :=
  ∀ st, ∃ evs, (m st).2.2 = (st.2 ++ evs)%list ∧ Forall P evs
               ∧ ∀ a, (m st).1 = Return a → Q a.

Lemma emits_ret {A} P (a : A) : emits P (mret a).
Proof. intros st. exists []. by rewrite app_nil_r. Qed.

Lemma emits_lift {A} P (o : outcome A) : emits P (lift o).
Proof. intros st. exists []. by rewrite app_nil_r. Qed.

Lemma emits_throw {A} P e : emits P (throw (A:=A) e).
Proof. apply emits_lift. Qed.

Lemma emits_call P m args f :
  (∀ r, P (Event m args r)) → emits P (call m args f).
Proof.
  intros HP [w tr]. unfold call. destruct (f w) as [r w'].
  exists [Event m args r]. split; [done | by constructor].
Qed.

Lemma emits_bind {A B} P (m : M A) (f : A → M B) :
  emits P m → (∀ a, emits P (f a)) → emits P (m ≫= f).
Proof.
  intros Hm Hf st. destruct (Hm st) as (evs1 & E1 & F1).
  unfold mbind, M_bind. destruct (m st) as [[a|e] st1]; simpl in *.
  - destruct (Hf a st1) as (evs2 & E2 & F2).
    exists (evs1 ++ evs2)%list. rewrite E2, E1, app_assoc.
    split; [done | by apply Forall_app].
  - by exists evs1.
Qed.

Lemma emits_settle {A} P (m : M A) : emits P m → emits P (settle m).
Proof.
  intros Hm st. destruct (Hm st) as (evs & E & F).
  unfold settle. destruct (m st) as [r st1]. by exists evs.
Qed.

Lemma emits_catch {A} P (m : M A) h :
  emits P m → (∀ e, emits P (h e)) → emits P (catch m h).
Proof.
  intros Hm Hh st. destruct (Hm st) as (evs1 & E1 & F1).
  unfold catch. destruct (m st) as [[a|e] st1]; simpl in *.
  - by exists evs1.
  - destruct (Hh e st1) as (evs2 & E2 & F2).
    exists (evs1 ++ evs2)%list. rewrite E2, E1, app_assoc.
    split; [done | by apply Forall_app].
Qed.

Lemma emits_mono {A} (P Q : event → Prop) (m : M A) :
  (∀ e, P e → Q e) → emits P m → emits Q m.
Proof.
  intros HPQ Hm st. destruct (Hm st) as (evs & E & F).
  exists evs. split; [done | by eapply Forall_impl].
Qed.

Lemma emits_mapM {A B} P (f : A → M B) l :
  (∀ x, emits P (f x)) → emits P (mapM f l).
Proof.
  intros Hf. induction l as [|x l IH]; simpl.
  - apply emits_ret.
  - apply emits_bind; [done | intros y].
    apply emits_bind; [done | intros k]. apply emits_ret.
Qed.

Lemma emits_promiseAllMap {A B} P (f : A → M B) l :
  (∀ x, emits P (f x)) → emits P (promiseAllMap f l).
Proof.
  intros Hf. apply emits_bind.
  - apply emits_mapM. intros x. by apply emits_settle.
  - intros rs. apply emits_lift.
Qed.

Lemma emits_orIdentity P m f v :
  (∀ r, P (Event m [v] r)) → emits P (orIdentity m f v).
Proof.
  intros HP. destruct f; simpl; [by apply emits_call | apply emits_ret].
Qed.

Lemma emits_orStubObject P m f request :
  (∀ r, P (Event m [requestVal request] r)) → emits P (orStubObject m f request).
Proof.
  intros HP. destruct f; simpl; [by apply emits_call | apply emits_ret].
Qed.

Lemma emits_guard P m g v request :
  (∀ r, P (Event m [v; requestVal request] r)) → emits P (guard m g v request).
Proof.
  intros HP. destruct g; simpl; [by apply emits_call | apply emits_ret].
Qed.

Lemma emits_notify P m d v :
  (∀ r, P (Event m [v] r)) → emits P (notify m d v).
Proof.
  intros HP. destruct d; simpl; [by apply emits_call | apply emits_ret].
Qed.

Lemma emits_respondLog P st data :
  (∀ r, P (Event MRespond [st; data] r)) → emits P (respondLog st data).
Proof. intros HP. by apply emits_call. Qed.

(** What a run started on the empty trace has emitted. *)
Lemma emits_trace {A} P (m : M A) w : emits P m → Forall P (trace m w).
Proof.
  intros Hm. destruct (Hm (w, [])) as (evs & E & F).
  unfold trace, run. by rewrite E.
Qed.

Lemma callsOf_app m tr1 tr2 :
  callsOf m (tr1 ++ tr2)%list = (callsOf m tr1 ++ callsOf m tr2)%list.
Proof. apply filter_app. Qed.

Lemma callsOf_none m tr :
  Forall (λ e, ev_method e ≠ m) tr → callsOf m tr = [].
Proof.
  induction 1 as [|e tr He _ IH]; [done|].
  unfold callsOf in *. by rewrite filter_cons_False.
Qed.

Lemma run_bind {A B} (m : M A) (f : A → M B) st :
  (m ≫= f) st
  = match m st return outcome B * (World * list event) with
    | (Return a, st') => f a st'
    | (Throw e, st') => (Throw e, st')
    end.
Proof. reflexivity. Qed.

Lemma bind_assoc_run {A B C} (m : M (World:=World) A) (f : A → M (World:=World) B)
    (g : B → M (World:=World) C) st :
  ((m ≫= f) ≫= g) st = (m ≫= λ a, f a ≫= g) st.
Proof. rewrite !run_bind. by destruct (m st) as [[a|e] st1]. Qed.

Lemma yields_emits {A} P (m : M A) : emits P m → yields P (λ _, True) m.
Proof.
  intros Hm st. destruct (Hm st) as (evs & E & F). by exists evs.
Qed.

Lemma yields_ret {A} P (Q : A → Prop) a : Q a → yields P Q (mret a).
Proof.
  intros HQ st. exists []. rewrite app_nil_r. repeat split; [done|].
  intros a' [= <-]. done.
Qed.

Lemma yields_lift {A} P (Q : A → Prop) (o : outcome A) :
  (∀ a, o = Return a → Q a) → yields P Q (lift o).
Proof. intros HQ st. exists []. rewrite app_nil_r. by repeat split. Qed.

Lemma yields_bind {A B} P (Q : A → Prop) (R : B → Prop) (m : M A) (f : A → M B) :
  yields P Q m → (∀ a, Q a → yields P R (f a)) → yields P R (m ≫= f).
Proof.
  intros Hm Hf st. destruct (Hm st) as (evs1 & E1 & F1 & Q1).
  rewrite run_bind. destruct (m st) as [[a|e] st1]; simpl in *.
  - destruct (Hf a (Q1 a eq_refl) st1) as (evs2 & E2 & F2 & Q2).
    exists (evs1 ++ evs2)%list. rewrite E2, E1, app_assoc.
    repeat split; [by apply Forall_app | done].
  - exists evs1. by repeat split.
Qed.

Lemma yields_trace {A} P Q (m : M A) w : yields P Q m → Forall P (trace m w).
Proof.
  intros Hm. destruct (Hm (w, [])) as (evs & E & F & _).
  unfold trace, run. by rewrite E.
Qed.

(** *** get-many *)

Lemma emits_findFilter request spec :
  emits (λ e, ev_method e = MSpecQuery)
        (findFilter JSON_parse regexpCompiles request spec).
Proof.
  apply emits_bind; [apply emits_lift | intros c].
  apply emits_bind; [by apply emits_orStubObject | intros x]. apply emits_ret.
Qed.

Lemma emits_exportAll Entity entities :
  emits (λ e, ev_method e = MExportMany ∨ ev_method e = MExportOne)
        (exportAll Entity entities).
Proof.
  unfold exportAll. destruct (Entity_exportMany Entity) as [f|].
  - apply emits_call. by left.
  - destruct entities; try apply emits_throw.
    apply emits_bind; [|intros; apply emits_ret].
    apply emits_promiseAllMap. intros x. apply emits_orIdentity. by right.
Qed.

(** When the sort and the filter are computed without error, [getMany]
    calls [Entity.find] exactly once, with that filter and those options. *)
Lemma getMany_find_call request spec Entity w sort filter st1 :
  sortOf (query request) = Return sort →
  findFilter JSON_parse regexpCompiles request spec (w, []) = (Return filter, st1) →
  ∃ r, callsOf MFind
         (trace (getMany JSON_parse regexpCompiles request respondLog spec Entity) w)
       = [Event MFind [filter; findOptions (query request) sort] r].
Proof.
  intros Hsort Hfilter. unfold trace, run, getMany. cbv zeta.
  rewrite Hsort, run_bind. unfold lift at 1. rewrite run_bind, Hfilter.
  destruct (emits_findFilter request spec (w, [])) as (evs1 & E1 & F1).
  rewrite Hfilter in E1. destruct st1 as [w1 tr1]. simpl in E1. subst tr1.
  rewrite run_bind. unfold call at 1. fold (findOptions (query request) sort).
  destruct (Entity_find Entity filter _ w1) as [r w2]. exists r.
  assert (callsOf MFind evs1 = []) as Hpre.
  { apply callsOf_none. eapply Forall_impl; [exact F1|].
    simpl. by intros e ->. }
  destruct r as [entities|e]; simpl.
  - assert (emits (λ e, ev_method e ≠ MFind)
              (exportAll Entity entities ≫= λ x, respondLog status200 x)) as Htail.
    { apply emits_bind.
      - eapply emits_mono; [|apply emits_exportAll].
        simpl. by intros e [-> | ->].
      - intros x. by apply emits_respondLog. }
    destruct (Htail (w2, (evs1 ++ [Event MFind [filter; findOptions (query request) sort]
                                        (Return entities)])%list))
      as (evs2 & E2 & F2).
    simpl in E2. rewrite E2, !callsOf_app, Hpre, (callsOf_none _ evs2 F2). done.
  - by rewrite callsOf_app, Hpre.
Qed.

Lemma sortOf_descending (q : gmap string jsval) f :
  q !! "sort" = Some (VStr (String "-" f)) →
  noLineTerminator f = true →
  sortOf q = Return {[ f := VNum (Int (-1)) ]}.
Proof.
  intros Hq Hf. unfold sortOf, getProp. rewrite Hq. simpl. by rewrite Hf.
Qed.

Lemma sortRegexp_plain f :
  (∀ r, f ≠ String "-" r) →
  noLineTerminator f = true →
  sortRegexp f = Some ("", f).
Proof.
  intros Hdash Hf. unfold sortRegexp. rewrite Hf.
  destruct f as [|c r]; [done|].
  destruct (decide (c = "-"%char)) as [->|Hc]; [by destruct (Hdash r)|].
  destruct c as [[] [] [] [] [] [] [] []]; done.
Qed.

Lemma sortOf_ascending (q : gmap string jsval) f :
  q !! "sort" = Some (VStr f) →
  f ≠ "" →
  (∀ r, f ≠ String "-" r) →
  noLineTerminator f = true →
  sortOf q = Return {[ f := VNum (Int 1) ]}.
Proof.
  intros Hq Hne Hdash Hf. unfold sortOf, getProp. rewrite Hq.
  destruct f as [|c r]; [done|].
  cbv beta iota delta [default from_option id].
  change (truthy (VStr (String c r))) with true. cbv beta iota.
  by rewrite (sortRegexp_plain (String c r)).
Qed.

Lemma sortOf_absent (q : gmap string jsval) :
  q !! "sort" = None → sortOf q = Return {[ "_id" := VNum (Int 1) ]}.
Proof. intros Hq. unfold sortOf, getProp. by rewrite Hq. Qed.

(** C3 (get-many, amended): when the filter is built without error,
    [Entity.find] is called once and its [sort] option is: descending on
    [f] for [query.sort] a dash followed by [f]; ascending on [f] for
    [query.sort] a non-empty [f] without leading dash; ascending on the
    field [_id] when [query.sort] is absent.  Field names are free of line
    terminators. *)
Theorem getMany_sort request spec Entity w filter st1 :
  findFilter JSON_parse regexpCompiles request spec (w, []) = (Return filter, st1) →
  (∀ f, query request !! "sort" = Some (VStr (String "-" f)) →
        noLineTerminator f = true →
        findCalledWithSort JSON_parse regexpCompiles request spec Entity w {[ f := VNum (Int (-1)) ]})
  ∧ (∀ f, query request !! "sort" = Some (VStr f) →
          f ≠ "" → (∀ r, f ≠ String "-" r) →
          noLineTerminator f = true →
          findCalledWithSort JSON_parse regexpCompiles request spec Entity w {[ f := VNum (Int 1) ]})
  ∧ (query request !! "sort" = None →
     findCalledWithSort JSON_parse regexpCompiles request spec Entity w {[ "_id" := VNum (Int 1) ]}).
Proof.
  intros Hfilter.
  assert (∀ sort, sortOf (query request) = Return sort →
                  findCalledWithSort JSON_parse regexpCompiles request spec Entity w sort) as Hcall.
  { intros sort Hsort.
    destruct (getMany_find_call request spec Entity w sort filter st1
                Hsort Hfilter) as [r Hr].
    eexists filter, _, r. split; [exact Hr|]. by simplify_map_eq. }
  repeat split.
  - intros f Hq Hf. by apply Hcall, sortOf_descending.
  - intros f Hq Hne Hdash Hf. by apply Hcall, sortOf_ascending.
  - intros Hq. by apply Hcall, sortOf_absent.
Qed.

(** The [limit] of [getMany] by cases on [query.limit]. *)
Lemma limitOf_string (q : gmap string jsval) s :
  q !! "limit" = Some (VStr s) → s ≠ "" →
  limitOf q = mathMin (parseInt (VStr s)) (Int 500).
Proof.
  intros Hq Hs. unfold limitOf, getProp, jsOr. rewrite Hq. simpl.
  by destruct s.
Qed.

Lemma limitOf_default (q : gmap string jsval) :
  q !! "limit" = None ∨ q !! "limit" = Some (VStr "") → limitOf q = Int 25.
Proof. intros [Hq|Hq]; unfold limitOf, getProp, jsOr; by rewrite Hq. Qed.

(** C7 (get-many, amended): when the sort and the filter are computed
    without error, [Entity.find] is called once and its [limit] option is
    the minimum of [parseInt(query.limit)] and 500 for a non-empty string
    [query.limit], and 25 when [query.limit] is absent or the empty string;
    so 500 for [limit=9999]. *)
Theorem getMany_limit request spec Entity w sort filter st1 :
  sortOf (query request) = Return sort →
  findFilter JSON_parse regexpCompiles request spec (w, []) = (Return filter, st1) →
  (∀ s, query request !! "limit" = Some (VStr s) → s ≠ "" →
        findCalledWithLimit JSON_parse regexpCompiles request spec Entity w
          (mathMin (parseInt (VStr s)) (Int 500)))
  ∧ (query request !! "limit" = None ∨ query request !! "limit" = Some (VStr "") →
     findCalledWithLimit JSON_parse regexpCompiles request spec Entity w (Int 25))
  ∧ (query request !! "limit" = Some (VStr "9999") →
     findCalledWithLimit JSON_parse regexpCompiles request spec Entity w (Int 500)).
Proof.
  intros Hsort Hfilter.
  destruct (getMany_find_call request spec Entity w sort filter st1
              Hsort Hfilter) as [r Hr].
  assert (findCalledWithLimit JSON_parse regexpCompiles request spec Entity w (limitOf (query request)))
    as Hcall.
  { eexists filter, _, r. split; [exact Hr|]. by simplify_map_eq. }
  repeat split.
  - intros s Hq Hs. by rewrite <- (limitOf_string (query request) s).
  - intros Hq. by rewrite <- (limitOf_default (query request)).
  - intros Hq. by rewrite (limitOf_string (query request) "9999") in Hcall.
Qed.

(** *** Middleware adapter *)

(** C8 (middleware, amended): when [spec.authenticate] throws an error
    without status, [next] receives an error with status 401 and the same
    message and details; when [spec.validate] throws one (authentication
    being absent or passed), [next] receives status 400 with the same
    message and details; an error whose status is truthy is handed to
    [next] as it is. *)
Theorem express_status_inference endpointFunction spec Entity req w :
  let request := requestView req in
  (∀ f e w1,
     authenticate spec = Some f → f request w = (Throw e, w1) →
     (status e = VUndefined →
      result (express endpointFunction spec Entity req) w
        = Return (Some (inferStatus 401 e)))
     ∧ (truthy (status e) = true →
        result (express endpointFunction spec Entity req) w = Return (Some e)))
  ∧ (∀ g e w0 w1,
       (authenticate spec = None ∧ w0 = w
        ∨ ∃ f v, authenticate spec = Some f ∧ f request w = (Return v, w0)) →
       validate spec = Some g → g request w0 = (Throw e, w1) →
       (status e = VUndefined →
        result (express endpointFunction spec Entity req) w
          = Return (Some (inferStatus 400 e)))
       ∧ (truthy (status e) = true →
          result (express endpointFunction spec Entity req) w = Return (Some e))).
Proof.
  intros request. unfold result, run, express. fold request. split.
  - intros f e w1 Hauth Hf. rewrite Hauth. unfold withStatus. monad.
    rewrite Hf. split; intros Hst; rewrite Hst; done.
  - intros g e w0 w1 Hpre Hval Hg. rewrite Hval. unfold withStatus.
    destruct Hpre as [[Hauth ->] | (f & v & Hauth & Hf)]; rewrite Hauth; monad.
    + rewrite Hg. split; intros Hst; rewrite Hst; done.
    + rewrite Hf, Hg. split; intros Hst; rewrite Hst; done.
Qed.

(** *** Filter translator *)

Lemma isFlag_not_slash c r :
  isFlag c = true → closingFlags (String c r) = None.
Proof. destruct c as [[] [] [] [] [] [] [] []]; done. Qed.

(** No cut inside the flags closes the pattern. *)
Lemma cuts_flags_open fl :
  allFlags fl = true →
  Forall (λ p : string * string, closingFlags p.2 = None) (cuts fl).
Proof.
  induction fl as [|c r IH]; simpl; intros Hfl.
  - by repeat constructor.
  - apply andb_true_iff in Hfl as [Hc Hr]. apply Forall_app. split.
    + apply Forall_fmap. eapply Forall_impl; [by apply IH | done].
    + repeat constructor. by apply isFlag_not_slash.
Qed.

(** The greedy pattern group of a delimited value stops at its last slash. *)
Lemma find_closing_cut src fl :
  noLineTerminator src = true →
  allFlags fl = true →
  ∃ i, list_find (λ p : string * string,
                    noLineTerminator p.1 = true ∧ is_Some (closingFlags p.2))
                 (cuts (src ++ String "/" fl))
       = Some (i, (src, String "/" fl)).
Proof.
  intros Hsrc Hfl. induction src as [|c r IH]; simpl.
  - rewrite list_find_app_r.
    + simpl. rewrite decide_True; [by eexists|].
      split; [done|]. simpl. rewrite Hfl. by eexists.
    + apply list_find_None, Forall_fmap.
      eapply Forall_impl; [by apply cuts_flags_open|].
      simpl. intros p Hp [_ [x Hx]]. by rewrite Hp in Hx.
  - simpl in Hsrc. apply andb_true_iff in Hsrc as [Hc Hr].
    destruct (IH Hr) as [i Hi]. exists i.
    apply list_find_app_l. rewrite list_find_fmap.
    erewrite list_find_ext; [rewrite Hi; done|].
    intros p. simpl. by rewrite Hc.
Qed.

(** A slash, a pattern without line terminator, a slash and flags has the
    delimited shape, with that pattern and those flags. *)
Lemma regexpShape_delimited src fl :
  noLineTerminator src = true →
  allFlags fl = true →
  regexpShape (String "/" (src ++ String "/" fl)) = Some (src, fl).
Proof.
  intros Hsrc Hfl. unfold regexpShape.
  destruct (find_closing_cut src fl Hsrc Hfl) as [i ->].
  simpl. by rewrite Hfl.
Qed.

Lemma regexpSyntax_shape s :
  regexpSyntax s = (λ p, (p.1, lastFlag p.2)) <$> regexpShape s.
Proof.
  unfold regexpSyntax, regexpShape.
  destruct s as [|c r]; [done|].
  destruct c as [[] [] [] [] [] [] [] []]; try done.
  destruct (list_find _ (cuts r)) as [[i [body rest]]|]; [|done].
  by destruct (closingFlags rest).
Qed.

(** With at most one flag, group 2 of the match is the flags argument that
    yields exactly these flags. *)
Lemma lastFlag_short fl :
  (String.length fl ≤ 1)%nat →
  match lastFlag fl with VStr f => f | _ => "" end = fl.
Proof. destruct fl as [|c [|c' r]]; simpl; [done | done | lia]. Qed.

(** The reducer on a string value, against the specification's condition. *)
Lemma filterStep_string prop s conditions :
  isReserved prop = false →
  (∀ src fl, regexpShape s = Some (src, fl) →
             (String.length fl ≤ 1)%nat ∧ regexpCompiles src (lastFlag fl) = true) →
  filterStep regexpCompiles prop (VStr s) conditions
  = Return (<[prop := specCondition s]> conditions).
Proof.
  intros Hres Hre. unfold filterStep, specCondition. rewrite Hres.
  destruct (String.eqb s "undefined"); [done|].
  destruct (String.eqb s "true"); [done|].
  destruct (String.eqb s "false"); [done|].
  rewrite regexpSyntax_shape.
  destruct (regexpShape s) as [[src fl]|]; [|done].
  destruct (Hre src fl eq_refl) as [Hlen Hcomp]. simpl.
  unfold newRegExp. rewrite Hcomp. simpl. by rewrite lastFlag_short.
Qed.

Lemma fold_filterStep (q : gmap string jsval) :
  translatable regexpCompiles q →
  ∃ conditions,
    map_fold (λ prop v acc, c ← acc; filterStep regexpCompiles prop v c)
             (Return ∅) q = Return conditions
    ∧ ∀ k, conditions !! k
           = if isReserved k then None else q !! k ≫= specTranslate.
Proof.
  apply (map_fold_weak_ind
    (λ r (m : gmap string jsval), translatable regexpCompiles m →
       ∃ conditions, r = Return conditions
         ∧ ∀ k, conditions !! k
                = if isReserved k then None else m !! k ≫= specTranslate)).
  - intros _. exists ∅. split; [done|]. intros k.
    rewrite !lookup_empty. by destruct (isReserved k).
  - intros i x m r Hi IH Hq.
    destruct IH as (c & -> & Hc).
    { intros k v Hk. apply Hq. rewrite lookup_insert_ne; [done|].
      intros ->. by rewrite Hi in Hk. }
    simpl. destruct (isReserved i) eqn:Hres.
    + exists c. split; [by unfold filterStep; rewrite Hres|].
      intros k. rewrite Hc. destruct (decide (k = i)) as [->|Hne].
      * by rewrite Hres.
      * by rewrite lookup_insert_ne.
    + destruct (Hq i x) as [-> | (s & -> & Hre)];
        [by rewrite lookup_insert_eq | done | |].
      * exists c. split; [by unfold filterStep; rewrite Hres|].
        intros k. rewrite Hc. destruct (decide (k = i)) as [->|Hne].
        -- by rewrite Hres, Hi, lookup_insert_eq.
        -- by rewrite lookup_insert_ne.
      * rewrite filterStep_string by done. eexists. split; [done|].
        intros k. destruct (decide (k = i)) as [->|Hne].
        -- by rewrite Hres, !lookup_insert_eq.
        -- rewrite !lookup_insert_ne by done. apply Hc.
Qed.

(** C6 (filter translator, amended): with a truthy [query.q] the result is
    [JSON.parse(query.q)], whatever the other keys; otherwise (no [q], or
    an empty one), for a query of strings and undefined values, the result
    is an object with exactly the non-reserved keys whose value is defined,
    each mapped to the condition the specification gives for its value. *)
Theorem filterConditions_translation (q : gmap string jsval) :
  (truthy (getProp q "q") = true →
   filterConditions JSON_parse regexpCompiles q = JSON_parse (getProp q "q"))
  ∧ (truthy (getProp q "q") = false →
     translatable regexpCompiles q →
     ∃ conditions,
       filterConditions JSON_parse regexpCompiles q = Return (VObj conditions)
       ∧ ∀ k, conditions !! k
              = if isReserved k then None else q !! k ≫= specTranslate).
Proof.
  unfold filterConditions. split; intros Hq; rewrite Hq; [done|].
  intros Ht. destruct (fold_filterStep q Ht) as (c & Hfold & Hc).
  exists c. by rewrite Hfold.
Qed.

(** *** patch-one *)

(** No result of the validator passes the test of [patchOne]: an error
    object is not greater than zero. *)
Lemma patchRejected_never patchErrors : patchRejected patchErrors = false.
Proof. by destruct patchErrors. Qed.

(** C1 (patch-one): the errors the validator reports are without effect:
    [patchOne] runs as it does with a validator that reports none, so the
    error 'Invalid patch' is not thrown and the pipeline goes on to
    [updateOne]. *)
Theorem patchOne_ignores_validator request respond spec Entity st :
  patchOne jsonPatch_validate jsonPatch_applyPatch request respond spec Entity st
  = patchOne (λ _ _, None) jsonPatch_applyPatch request respond spec Entity st.
Proof.
  unfold patchOne. cbv zeta. rewrite !run_bind.
  destruct (call MFindById _ _ st) as [[existing|e] st1]; [|done].
  rewrite !run_bind. destruct (lift _ st1) as [[[]|e] st2]; [|done].
  rewrite !run_bind. by rewrite patchRejected_never.
Qed.

(** *** patch-many *)

(** With no record, no callback runs, whatever the segments. *)
Lemma lockStep_nil (segments : list (jsval → M (World:=World) jsval))
    rejected st :
  lockStep segments [] rejected st = (Return ([], rejected), st).
Proof. induction segments as [|f segments IH]; [done|]. simpl. by rewrite run_bind. Qed.

(** One round on a single callback. *)
Lemma round_single (f : jsval → M (World:=World) jsval) x rejected st :
  round f [Some x] rejected st
  = match f x st with
    | (Return y, st') => (Return ([Some y], rejected), st')
    | (Throw e, st') => (Return ([None], Some (default e rejected)), st')
    end.
Proof.
  simpl. rewrite run_bind. unfold settle.
  by destruct (f x st) as [[y|e] st'].
Qed.

Lemma lockStep_cons (f : jsval → M (World:=World) jsval) segments slots
    rejected st :
  lockStep (f :: segments) slots rejected st
  = match round f slots rejected st with
    | (Return (slots', rejected'), st') => lockStep segments slots' rejected' st'
    | (Throw e, st') => (Throw e, st')
    end.
Proof.
  simpl. rewrite run_bind.
  by destruct (round f slots rejected st) as [[[slots' rejected']|e] st'].
Qed.

(** A callback that has thrown stays out of the later rounds. *)
Lemma lockStep_dropped (segments : list (jsval → M (World:=World) jsval))
    rejected st :
  lockStep segments [None] rejected st = (Return ([None], rejected), st).
Proof.
  revert st. induction segments as [|f segments IH]; intros st; [done|].
  simpl. rewrite !run_bind. simpl. by rewrite IH.
Qed.

(** With one record, the rounds of [patchMany] run the callback from its
    start to its end. *)
Lemma lockStep_single request Entity setProps existingEntity st :
  lockStep (patchManySegments request Entity setProps) [Some existingEntity] None st
  = match patchManyRecord request Entity setProps existingEntity st with
    | (Return exported, st') => (Return ([Some exported], None), st')
    | (Throw e, st') => (Return ([None], Some e), st')
    end.
Proof.
  unfold patchManySegments, patchManyRecord, guard.
  destruct (Entity_shouldUpdate Entity) as [g|].
  - rewrite lockStep_cons, round_single, !run_bind.
    destruct (patchManyCandidate _ _ _ _ st) as [[props|e] st1];
      [|by rewrite lockStep_dropped].
    rewrite !run_bind.
    destruct (call MShouldUpdate _ _ st1) as [[v|e] st2];
      [|by rewrite lockStep_dropped].
    cbn [mret M_ret]. rewrite lockStep_cons, round_single, !run_bind.
    destruct (call MUpdateOne _ _ st2) as [[entity|e] st3];
      [|by rewrite lockStep_dropped].
    rewrite lockStep_cons, round_single.
    by destruct (orIdentity _ _ entity st3) as [[exported|e] st4].
  - rewrite lockStep_cons, round_single, !run_bind.
    destruct (patchManyCandidate _ _ _ _ st) as [[props|e] st1];
      [|by rewrite lockStep_dropped].
    rewrite !run_bind. cbn [mret M_ret]. rewrite !run_bind.
    destruct (call MUpdateOne _ _ st1) as [[entity|e] st2];
      [|by rewrite lockStep_dropped].
    rewrite lockStep_cons, round_single.
    by destruct (orIdentity _ _ entity st2) as [[exported|e] st3].
Qed.

(** C2 (patch-many, amended): when [Entity.find] returns a falsy value,
    [patchMany] calls [respond(200)] without data and nothing else; when it
    returns the empty array and the endpoint's [set] returns, [patchMany]
    responds once, with status 200 and the empty array, and no callback
    runs: the only calls are those of the endpoint's [query] and [set], of
    [find] and of [respond], so [updateOne] is not called. *)
Theorem patchMany_nothing_matched request spec Entity w filter w1 tr1 found w2 :
  findFilter JSON_parse regexpCompiles request spec (w, [])
    = (Return filter, (w1, tr1)) →
  Entity_find Entity filter VUndefined w1 = (Return found, w2) →
  let find_ev := Event MFind [filter] (Return found) in
  (truthy found = false →
     run (patchMany JSON_parse regexpCompiles request respondLog spec Entity) w
     = (Return VUndefined,
        (w2, (tr1 ++ [find_ev; Event MRespond [status200; VUndefined]
                                  (Return VUndefined)])%list)))
  ∧ (found = VArr [] →
     ∀ setProps st3,
       orStubObject MSpecSet (specSet spec) request (w2, (tr1 ++ [find_ev])%list)
         = (Return setProps, st3) →
       let tr := trace (patchMany JSON_parse regexpCompiles request respondLog
                          spec Entity) w in
       result (patchMany JSON_parse regexpCompiles request respondLog spec Entity) w
         = Return VUndefined
       ∧ callsOf MRespond tr
         = [Event MRespond [status200; VArr []] (Return VUndefined)]
       ∧ Forall outsideCallbacks tr
       ∧ callsOf MUpdateOne tr = []).
Proof.
  intros Hfilter Hfind find_ev.
  split.
  - intros Hfalsy. unfold run, patchMany. rewrite run_bind, Hfilter, run_bind.
    unfold call at 1. rewrite Hfind, Hfalsy. simpl. unfold respondLog, call.
    by rewrite <- app_assoc.
  - intros -> setProps [w3 tr3] Hset tr.
    assert (run (patchMany JSON_parse regexpCompiles request respondLog spec Entity) w
            = (Return VUndefined,
               (w3, (tr3 ++ [Event MRespond [status200; VArr []]
                               (Return VUndefined)])%list))) as Hrun.
    { unfold run, patchMany. rewrite run_bind, Hfilter, run_bind.
      unfold call at 1. rewrite Hfind. simpl. rewrite run_bind.
      fold find_ev. rewrite Hset, run_bind, lockStep_nil. simpl.
      rewrite run_bind. unfold respondLog, call at 1.
      by destruct (Entity_didUpdate Entity). }
    destruct (emits_findFilter request spec (w, [])) as (evs1 & E1 & F1).
    rewrite Hfilter in E1. simpl in E1. subst tr1.
    destruct (emits_orStubObject (λ e, ev_method e = MSpecSet) MSpecSet
                (specSet spec) request ltac:(done) (w2, (evs1 ++ [find_ev])%list))
      as (evs2 & E2 & F2).
    rewrite Hset in E2. simpl in E2. subst tr3.
    assert (Forall outsideCallbacks
              ((evs1 ++ [find_ev]) ++ evs2 ++
               [Event MRespond [status200; VArr []] (Return VUndefined)])%list)
      as Hall.
    { rewrite !Forall_app. repeat split.
      - eapply Forall_impl; [exact F1|]. intros e He. by left.
      - constructor; [right; by left | constructor].
      - eapply Forall_impl; [exact F2|]. intros e He. right. right. by left.
      - constructor; [right; right; by right | constructor]. }
    unfold result, tr, trace. rewrite Hrun. simpl. rewrite <- app_assoc.
    split; [done|]. split; [|split; [done|]].
    + rewrite !callsOf_app.
      rewrite (callsOf_none MRespond evs1), (callsOf_none MRespond evs2); [done | |].
      * eapply Forall_impl; [exact F2|]. simpl. by intros e ->.
      * eapply Forall_impl; [exact F1|]. simpl. by intros e ->.
    + apply callsOf_none. eapply Forall_impl; [exact Hall|].
      intros e [He | [He | [He | He]]]; by rewrite He.
Qed.

(** *** The candidate of an update *)

Lemma omitUndefined_updateLiteral reset setProps id :
  omitUndefined (updateLiteral reset setProps id)
  = mergedCandidate reset setProps id.
Proof.
  unfold omitUndefined, updateLiteral, mergedCandidate, ownProps at 1.
  rewrite map_filter_insert_False by (simpl; done).
  rewrite !map_filter_delete.
  rewrite map_filter_insert_False by (simpl; done).
  by rewrite !map_filter_delete.
Qed.

(** The properties of the candidate, key by key. *)
Lemma mergedCandidate_lookup reset setProps id k :
  mergedCandidate reset setProps id !! k
  = if decide (k = "_links" ∨ k = "_embedded") then None
    else v ← (if decide (k = "id") then Some id
              else (ownProps setProps ∪ ownProps reset) !! k);
         if isUndefined v then None else Some v.
Proof.
  unfold mergedCandidate. rewrite map_lookup_filter.
  destruct (decide (k = "_links" ∨ k = "_embedded")) as [[-> | ->]|Hk].
  - by rewrite (lookup_delete_eq (M:=gmap string)).
  - by rewrite lookup_delete_ne, (lookup_delete_eq (M:=gmap string)).
  - rewrite !lookup_delete_ne by (intros <-; apply Hk; auto).
    destruct (decide (k = "id")) as [->|Hid].
    + rewrite lookup_insert_eq. simpl. by destruct id.
    + rewrite lookup_insert_ne by done.
      destruct ((ownProps setProps ∪ ownProps reset) !! k) as [v|]; [|done].
      simpl. by destruct v.
Qed.

Lemma mergedCandidate_id reset setProps id :
  getProp (mergedCandidate reset setProps id) "id" = id.
Proof.
  unfold getProp. rewrite mergedCandidate_lookup. simpl. by destruct id.
Qed.

Lemma updateLiteral_id reset setProps id :
  ∃ m, updateLiteral reset setProps id = VObj m ∧ getProp m "id" = id.
Proof.
  eexists. split; [done|]. unfold getProp. by simplify_map_eq.
Qed.

(** A call that is neither [prepareUpdate] nor a use of the candidate. *)
Ltac other_call :=
  let H := fresh in
  split; [by intros H | by intros _ [H|[H|[H|H]]]].

Lemma updateCandidate_yields Entity incoming existing setProps idO id :
  (∀ i, idO = Return i → i = id) →
  yields (candidateEvent Entity id)
         (λ v, Entity_prepareUpdate Entity = None →
               ∃ reset setProps, v = VObj (mergedCandidate reset setProps id))
         (updateCandidate Entity incoming existing setProps idO).
Proof.
  intros Hid. unfold updateCandidate.
  eapply yields_bind.
  { apply yields_emits, emits_call. intros r. other_call. }
  intros reset _. eapply yields_bind; [by apply yields_lift, Hid|].
  intros i ->. unfold orIdentity.
  destruct (Entity_prepareUpdate Entity) as [g|].
  - eapply yields_bind.
    { apply yields_emits, emits_call. intros r. split.
      - intros _. by eexists _, _.
      - by intros _ [H|[H|[H|H]]]. }
    intros prepared _. by apply yields_ret.
  - eapply yields_bind; [by apply (yields_ret _ (λ v, v = updateLiteral reset setProps id))|].
    intros prepared ->. apply yields_ret. intros _.
    exists reset, setProps. by rewrite omitUndefined_updateLiteral.
Qed.

(** A call that receives the candidate [props]. *)
Ltac candidate_call Hprops :=
  intros ?; split;
    [ by intros ?
    | let Hnone := fresh in
      intros Hnone _; destruct (Hprops Hnone) as (? & ? & ->);
      eexists _, _, _; reflexivity ].

(** Step over a call that is neither [prepareUpdate] nor a use of the
    candidate. *)
Ltac step_other lemma :=
  eapply yields_bind;
    [ apply yields_emits, lemma; intros ?; other_call | intros ? _ ].

(** Validation, guard and storage call of an update, then export, response
    and notification. *)
Lemma persist_yields Entity id request props store
    (persist : jsval → ext jsval) :
  store = MReplaceOne ∨ store = MUpdateOne →
  (Entity_prepareUpdate Entity = None →
   ∃ reset setProps, props = VObj (mergedCandidate reset setProps id)) →
  yields (candidateEvent Entity id) (λ _, True)
    (call MAssertValid [props; invalidProps]
          (Entity_assertValid Entity props invalidProps);;
     guard MShouldUpdate (Entity_shouldUpdate Entity) props request;;
     entity ← call store [props] (persist props);
     exportEntity ← orIdentity MExportOne (Entity_exportOne Entity) entity;
     respondLog status200 exportEntity;;
     notify MDidUpdate (Entity_didUpdate Entity) exportEntity).
Proof.
  intros Hstore Hprops.
  eapply yields_bind;
    [apply yields_emits, emits_call; candidate_call Hprops | intros ? _].
  eapply yields_bind;
    [apply yields_emits, emits_guard; candidate_call Hprops | intros ? _].
  eapply yields_bind;
    [ apply yields_emits, emits_call;
      destruct Hstore as [-> | ->]; candidate_call Hprops
    | intros entity _ ].
  step_other emits_orIdentity.
  eapply yields_bind;
    [apply yields_emits, emits_respondLog; intros ?; other_call | intros ? _].
  apply yields_emits, emits_notify. intros ?. other_call.
Qed.

Lemma putOne_candidateEvents request spec Entity w :
  Forall (candidateEvent Entity (getProp (urlParams request) "entityId"))
         (trace (putOne request respondLog spec Entity) w).
Proof.
  eapply (yields_trace _ (λ _, True)). unfold putOne. cbv zeta.
  step_other emits_call.
  eapply yields_bind; [apply yields_emits, emits_lift | intros ? _].
  step_other emits_orStubObject.
  eapply yields_bind; [by apply updateCandidate_yields; intros i [= <-]|].
  intros props Hprops. eapply persist_yields; [by left | done].
Qed.

Lemma patchOne_candidateEvents request spec Entity w :
  Forall (candidateEvent Entity (getProp (urlParams request) "entityId"))
         (trace (patchOne jsonPatch_validate jsonPatch_applyPatch request
                   respondLog spec Entity) w).
Proof.
  eapply (yields_trace _ (λ _, True)). unfold patchOne. cbv zeta.
  step_other emits_call.
  eapply yields_bind; [apply yields_emits, emits_lift | intros ? _].
  eapply yields_bind.
  { apply (yields_emits _ _). destruct (isArray _); [|apply emits_ret].
    destruct (patchRejected _); [apply emits_throw | apply emits_lift]. }
  intros [incoming existing] _.
  step_other emits_orStubObject.
  eapply yields_bind; [by apply updateCandidate_yields; intros i [= <-]|].
  intros props Hprops. eapply persist_yields; [by right | done].
Qed.

Lemma patchManyRecord_candidateEvents request Entity setProps existingEntity w :
  Forall (candidateEvent Entity (getProp (ownProps existingEntity) "id"))
         (trace (patchManyRecord request Entity setProps existingEntity) w).
Proof.
  eapply (yields_trace _ (λ _, True)). unfold patchManyRecord, patchManyCandidate.
  set (id := getProp (ownProps existingEntity) "id").
  eapply (yields_bind _
    (λ v, Entity_prepareUpdate Entity = None →
          ∃ reset sp, v = VObj (mergedCandidate reset sp id))).
  - eapply yields_bind.
    + apply updateCandidate_yields. intros i.
      destruct existingEntity; simpl; by intros [= <-].
    + intros props Hprops. eapply yields_bind;
        [apply yields_emits, emits_call; candidate_call Hprops | intros ? _].
      by apply yields_ret.
  - intros props Hprops.
    eapply yields_bind;
      [apply yields_emits, emits_guard; candidate_call Hprops | intros ? _].
    eapply yields_bind;
      [apply yields_emits, emits_call; candidate_call Hprops | intros entity _].
    apply yields_emits, emits_orIdentity. intros ?. other_call.
Qed.

Lemma candidateEvent_forcedId Entity id e :
  candidateEvent Entity id e → forcedId Entity id e.
Proof.
  intros [Hprep Huse]. split.
  - intros Hm. destruct (Hprep Hm) as (reset & setProps & ->).
    destruct (updateLiteral_id reset setProps id) as (m & -> & Hid). eauto.
  - intros Hnone Hm. destruct (Huse Hnone Hm) as (reset & setProps & rest & ->).
    eexists _, _. split; [done|]. apply mergedCandidate_id.
Qed.

(** C5 (replace, patch-one): in every run of [putOne] and of [patchOne],
    the object handed to [prepareUpdate] has its [id] equal to
    [request.urlParams.entityId], and without a [prepareUpdate] hook so has
    the object handed to [assertValid], to the guard and to
    [replaceOne]/[updateOne], whatever the body and the [set] result hold. *)
Theorem update_id_from_url request spec Entity w :
  let entityId := getProp (urlParams request) "entityId" in
  Forall (forcedId Entity entityId) (trace (putOne request respondLog spec Entity) w)
  ∧ Forall (forcedId Entity entityId)
           (trace (patchOne jsonPatch_validate jsonPatch_applyPatch request
                     respondLog spec Entity) w).
Proof.
  intros entityId. split.
  - eapply Forall_impl; [apply putOne_candidateEvents|].
    apply candidateEvent_forcedId.
  - eapply Forall_impl; [apply patchOne_candidateEvents|].
    apply candidateEvent_forcedId.
Qed.



(** The endpoint's [set], run from a given state. *)
Lemma setReturns_run spec request w setProps w' tr :
  setReturns spec request w setProps w' →
  ∃ evs,
    orStubObject MSpecSet (specSet spec) request (w, tr)
    = (Return setProps, (w', (tr ++ evs)%list))
    ∧ Forall (λ e, ev_method e = MSpecSet) evs.
Proof.
  unfold setReturns, orStubObject. destruct (specSet spec) as [f|].
  - intros Hf. eexists [_]. unfold call. rewrite Hf.
    split; [reflexivity | by repeat constructor].
  - intros [-> ->]. exists []. by rewrite app_nil_r.
Qed.










(** *** The candidates of patch-many *)









(** *** Guards *)

Lemma guardOutcome_no_guard guardM mutateM V tr :
  Forall (λ e, ev_method e ≠ guardM) tr → guardOutcome guardM mutateM V tr.
Proof.
  intros Htr props req e Hin. rewrite Forall_forall in Htr.
  by destruct (Htr _ Hin).
Qed.

Lemma guardOutcome_bind {A} guardM mutateM V (pre : M A) (tail : A → M jsval) :
  emits (quiet guardM mutateM) pre →
  (∀ a st, Forall (quiet guardM mutateM) st.2 →
           guardOutcome guardM mutateM V (tail a st).2.2) →
  ∀ st, Forall (quiet guardM mutateM) st.2 →
        guardOutcome guardM mutateM V ((pre ≫= tail) st).2.2.
Proof.
  intros Hpre Htail st Hst. rewrite run_bind.
  destruct (Hpre st) as (evs & E & F).
  destruct (pre st) as [[a|e] st1]; simpl in E.
  - apply Htail. rewrite E. by apply Forall_app.
  - apply guardOutcome_no_guard. simpl. rewrite E.
    apply Forall_app. split; (eapply Forall_impl; [eassumption|]); by intros ? [].
Qed.

Lemma beforeLast_snoc2 (tr : list event) a b :
  beforeLast (tr ++ [a; b])%list = Some a.
Proof.
  unfold beforeLast.
  change (tr ++ [a; b])%list with (tr ++ [a] ++ [b])%list.
  by rewrite app_assoc, removelast_last, last_snoc.
Qed.

(** The guard, then a rest that does not call it. *)
Lemma guarded_tail guardM mutateM V hook p request (rest : M jsval) st :
  Forall (quiet guardM mutateM) st.2 →
  guardM ≠ mutateM →
  emits (λ e, ev_method e ≠ guardM) rest →
  (∀ h r w', hook = Some h →
     V (st.2 ++ [Event guardM [p; requestVal request] (Throw r)])%list p) →
  guardOutcome guardM mutateM V
    ((guard guardM hook p request;; rest) st).2.2.
Proof.
  intros Hst Hne Hrest HV. rewrite run_bind. unfold guard.
  assert (Forall (λ e, ev_method e ≠ guardM) st.2) as Hst'.
  { eapply Forall_impl; [exact Hst|]. by intros ? []. }
  destruct hook as [h|].
  - destruct st as [w tr]. unfold call.
    destruct (h p request w) as [[v|r] w']; simpl in *.
    + destruct (Hrest (w', (tr ++ [Event guardM [p; requestVal request] (Return v)])%list))
        as (evs & E & F).
      intros props req e Hin. rewrite E in Hin. simpl in Hin.
      rewrite !elem_of_app, Forall_forall in *.
      destruct Hin as [[Hin|Hin]|Hin].
      * by destruct (Hst' _ Hin).
      * apply list_elem_of_singleton in Hin. discriminate Hin.
      * by destruct (F _ Hin).
    + intros props req e Hin. apply elem_of_app in Hin as [Hin|Hin].
      { rewrite Forall_forall in Hst'. by destruct (Hst' _ Hin). }
      apply list_elem_of_singleton in Hin. injection Hin as -> -> ->.
      split; [split|].
      * rewrite callsOf_app, callsOf_none.
        -- unfold callsOf. by rewrite filter_cons_False.
        -- eapply Forall_impl; [exact Hst|]. by intros ? [].
      * by rewrite last_snoc.
      * by eapply HV.
  - simpl. apply guardOutcome_no_guard.
    destruct (Hrest st) as (evs & E & F). rewrite E. by apply Forall_app.
Qed.

(** Validation, the guard, then a rest that does not call the guard. *)
Lemma validated_tail guardM mutateM chk hook c p request f (rest : M jsval) st :
  Forall (quiet guardM mutateM) st.2 →
  guardM ≠ mutateM → guardM ≠ MAssertValid → mutateM ≠ MAssertValid →
  emits (λ e, ev_method e ≠ guardM) rest →
  c = chk p →
  guardOutcome guardM mutateM (λ tr props, validatedBefore tr (chk props))
    ((call MAssertValid [c; invalidProps] f;;
      guard guardM hook p request;; rest) st).2.2.
Proof.
  intros Hst Hne Hg Hm Hrest ->. rewrite run_bind.
  destruct st as [w tr]. unfold call at 1.
  destruct (f w) as [[v|r] w']; simpl in *.
  - apply guarded_tail; simpl; try done.
    + apply Forall_app. split; [done|]. constructor; [|done]. by split.
    + intros _ r _ _. exists v. rewrite <- app_assoc. apply beforeLast_snoc2.
  - apply guardOutcome_no_guard. apply Forall_app. split.
    + eapply Forall_impl; [exact Hst|]. by intros ? [].
    + constructor; [|done]. done.
Qed.

(** Discharge [emits P m] for a sequence of calls none of which [P]
    excludes. *)
Ltac emits_auto :=
  repeat first
    [ apply emits_ret | apply emits_lift | apply emits_throw
    | apply emits_call; intros ?; done
    | apply emits_orIdentity; intros ?; done
    | apply emits_orStubObject; intros ?; done
    | apply emits_guard; intros ?; done
    | apply emits_notify; intros ?; done
    | apply emits_respondLog; intros ?; done
    | apply emits_bind; [|intros ?]
    | match goal with
      | |- emits _ (if ?b then _ else _) => destruct b
      | |- emits _ (let '(_, _) := ?p in _) => destruct p
      end ].


Lemma postOne_guard request spec Entity w :
  guardOutcome MShouldCreate MCreateOne
    (λ tr props, validatedBefore tr (withPlaceholderId props))
    (trace (postOne request respondLog spec Entity) w).
Proof.
  unfold trace, run, postOne.
  apply guardOutcome_bind; [emits_auto | intros setProps st1 H1 | done].
  apply guardOutcome_bind; [emits_auto | intros prepared st2 H2 | done].
  cbv zeta. apply (validated_tail _ _ withPlaceholderId); try done.
  emits_auto.
Qed.

Lemma putOne_guard request spec Entity w :
  guardOutcome MShouldUpdate MReplaceOne (λ tr props, validatedBefore tr props)
    (trace (putOne request respondLog spec Entity) w).
Proof.
  unfold trace, run, putOne. cbv zeta.
  apply guardOutcome_bind; [emits_auto | intros existing st1 H1 | done].
  apply guardOutcome_bind; [emits_auto | intros ? st2 H2 | done].
  apply guardOutcome_bind; [emits_auto | intros setProps st3 H3 | done].
  apply guardOutcome_bind;
    [unfold updateCandidate; emits_auto | intros props st4 H4 | done].
  apply (validated_tail _ _ id); try done. emits_auto.
Qed.

Lemma patchOne_guard request spec Entity w :
  guardOutcome MShouldUpdate MUpdateOne (λ tr props, validatedBefore tr props)
    (trace (patchOne jsonPatch_validate jsonPatch_applyPatch request
              respondLog spec Entity) w).
Proof.
  unfold trace, run, patchOne. cbv zeta.
  apply guardOutcome_bind; [emits_auto | intros existing st1 H1 | done].
  apply guardOutcome_bind; [emits_auto | intros ? st2 H2 | done].
  apply guardOutcome_bind; [emits_auto | intros [incoming ex] st3 H3 | done].
  apply guardOutcome_bind; [emits_auto | intros setProps st4 H4 | done].
  apply guardOutcome_bind;
    [unfold updateCandidate; emits_auto | intros props st5 H5 | done].
  apply (validated_tail _ _ id); try done. emits_auto.
Qed.

Lemma patchManyRecord_guard request Entity setProps existingEntity w :
  guardOutcome MShouldUpdate MUpdateOne (λ tr props, validatedBefore tr props)
    (trace (patchManyRecord request Entity setProps existingEntity) w).
Proof.
  unfold trace, run, patchManyRecord, patchManyCandidate.
  rewrite bind_assoc_run.
  apply guardOutcome_bind;
    [unfold updateCandidate; emits_auto | intros props st1 H1 | done].
  rewrite bind_assoc_run.
  apply (validated_tail _ _ id); try done. emits_auto.
Qed.

Lemma deleteOne_guard request spec Entity w :
  guardOutcome MShouldDelete MDeleteOne (λ _ _, True)
    (trace (deleteOne request respondLog spec Entity) w).
Proof.
  unfold trace, run, deleteOne. cbv zeta.
  apply guardOutcome_bind; [emits_auto | intros entity st1 H1 | done].
  apply guardOutcome_bind; [emits_auto | intros ? st2 H2 | done].
  apply guarded_tail; try done. emits_auto.
Qed.

(** C4 (guards): in a run of create, replace, patch-one, the callback of
    patch-many or delete where the guard hook is called and throws, that
    call is the last one of the run and the storage call of the handler
    ([createOne], [replaceOne], [updateOne], [deleteOne]) is not made; for
    create, replace and patch the call just before is an [assertValid]
    that passed, on the candidate the guard receives (for create, on that
    candidate with the placeholder id under it). *)
Theorem guard_rejection_prevents_mutation request spec Entity w props req e :
  (Event MShouldCreate [props; req] (Throw e)
     ∈ trace (postOne request respondLog spec Entity) w →
   rejectedBy MShouldCreate MCreateOne
     (trace (postOne request respondLog spec Entity) w) props req e
   ∧ validatedBefore (trace (postOne request respondLog spec Entity) w)
       (withPlaceholderId props))
  ∧ (Event MShouldUpdate [props; req] (Throw e)
       ∈ trace (putOne request respondLog spec Entity) w →
     rejectedBy MShouldUpdate MReplaceOne
       (trace (putOne request respondLog spec Entity) w) props req e
     ∧ validatedBefore (trace (putOne request respondLog spec Entity) w) props)
  ∧ (Event MShouldUpdate [props; req] (Throw e)
       ∈ trace (patchOne jsonPatch_validate jsonPatch_applyPatch request
                  respondLog spec Entity) w →
     rejectedBy MShouldUpdate MUpdateOne
       (trace (patchOne jsonPatch_validate jsonPatch_applyPatch request
                 respondLog spec Entity) w) props req e
     ∧ validatedBefore
         (trace (patchOne jsonPatch_validate jsonPatch_applyPatch request
                   respondLog spec Entity) w) props)
  ∧ (∀ setProps existingEntity,
       Event MShouldUpdate [props; req] (Throw e)
         ∈ trace (patchManyRecord request Entity setProps existingEntity) w →
       rejectedBy MShouldUpdate MUpdateOne
         (trace (patchManyRecord request Entity setProps existingEntity) w)
         props req e
       ∧ validatedBefore
           (trace (patchManyRecord request Entity setProps existingEntity) w)
           props)
  ∧ (Event MShouldDelete [props; req] (Throw e)
       ∈ trace (deleteOne request respondLog spec Entity) w →
     rejectedBy MShouldDelete MDeleteOne
       (trace (deleteOne request respondLog spec Entity) w) props req e).
Proof.
  split; [|split; [|split; [|split]]].
  - apply postOne_guard.
  - apply putOne_guard.
  - apply patchOne_guard.
  - intros setProps existingEntity. apply patchManyRecord_guard.
  - intros Hin. by apply (deleteOne_guard request spec Entity w).
Qed.


(** ** Beyond the claims *)

(** *** Response shaper *)

Lemma append_assoc (a b c : string) : (a ++ b) ++ c = a ++ b ++ c.
Proof.
  induction a as [|x a IH]; [done|].
  change (String x ((a ++ b) ++ c) = String x (a ++ b ++ c)). by rewrite IH.
Qed.

Lemma lastChar_slash url : lastChar (url ++ "/") = "/".
Proof.
  induction url as [|c r IH]; [done|].
  change (lastChar (String c (r ++ "/")) = "/").
  cbn [lastChar]. destruct (r ++ "/") eqn:E; [by destruct r | done].
Qed.

(** X1 (exportHAL, collection): for a base URL that does not end with a
    slash, the export of an array is the object with the self link
    [url/name/], the number of items and the array under [name], where
    [name] is the plural name or ['data']; the base URL with a trailing
    slash gives the same object, so the link never has a doubled slash
    before the name. *)
Theorem exportHAL_collection url pluralName items :
  lastChar url ≠ "/" →
  let name := toString (jsOr pluralName (VStr "data")) in
  let exported :=
    VObj (<["_embedded" := VObj {[ name := VArr items ]}]>
         (<["count" := VNum (Int (Z.of_nat (length items)))]>
         (<["_links" := selfLink (url ++ "/" ++ name ++ "/")]> ∅))) in
  exportHAL url pluralName (VArr items) = Return exported
  ∧ exportHAL (url ++ "/") pluralName (VArr items) = Return exported.
Proof.
  intros Hlast name exported. unfold exportHAL. fold name. split.
  - destruct (String.eqb_spec (lastChar url) "/") as [E|_]; [by destruct Hlast|].
    done.
  - rewrite lastChar_slash. unfold exported, selfLink.
    rewrite <- (append_assoc url "/" (name ++ "/")). reflexivity.
Qed.

(** X2 (exportHAL, record): the export of an object keeps every property
    other than [_links], replaces [_links] by the self link built from the
    object's [id], and exporting the result again changes nothing. *)
Theorem exportHAL_record_idempotent url pluralName (m : gmap string jsval) :
  let href :=
    url ++ "/" ++ toString pluralName ++ "/" ++ toString (getProp m "id") in
  let m' := <["_links" := selfLink href]> m in
  exportHAL url pluralName (VObj m) = Return (VObj m')
  ∧ (∀ k, k ≠ "_links" → m' !! k = m !! k)
  ∧ exportHAL url pluralName (VObj m') = Return (VObj m').
Proof.
  intros href m'. unfold exportHAL, readProp. cbn [ownProps mbind outcome_bind].
  assert (getProp m' "id" = getProp m "id") as Hid.
  { unfold getProp, m'. by rewrite lookup_insert_ne. }
  split; [done|]. split.
  - intros k Hk. unfold m'. by rewrite lookup_insert_ne.
  - rewrite Hid. fold href. unfold m'. by rewrite insert_insert_eq.
Qed.

(** X3 (get-one with the response shaper as exporter): when the id is a
    string and [findById] returns [null] or [undefined], [getOne] with
    [exportHAL] as its [exportOne] throws the error of reading [data.id]
    and never responds. *)
Theorem getOne_exportHAL_missing request spec Entity w url pluralName found w1 :
  let entityId := getProp (urlParams request) "entityId" in
  isString entityId = true →
  Entity_findById Entity entityId w = (Return found, w1) →
  found = VNull ∨ found = VUndefined →
  Entity_exportOne Entity = Some (exportHALHook url pluralName) →
  result (getOne request respondLog spec Entity) w = Throw cannotRead
  ∧ callsOf MRespond (trace (getOne request respondLog spec Entity) w) = [].
Proof.
  intros entityId Hid Hfind Hfound Hexp.
  unfold result, trace, run, getOne, Sert_string. fold entityId.
  rewrite Hid, Hexp. monad. rewrite Hfind. unfold exportHALHook.
  by destruct Hfound as [-> | ->].
Qed.

(** *** Records that do not exist *)

(** X4 (replace, patch-one, delete on a missing record): when [findById]
    returns anything but an object, [putOne], [patchOne] and [deleteOne]
    throw the error with status 404 and make no other call: no [set], no
    reconciliation, no validation, no guard, no storage call, no response. *)
Theorem missing_record_stops_handler request spec Entity w found w1 :
  let entityId := getProp (urlParams request) "entityId" in
  Entity_findById Entity entityId w = (Return found, w1) →
  isObject found = false →
  let stopped :=
    (Throw (A:=jsval) notFound,
     (w1, [Event MFindById [entityId] (Return found)])) in
  run (putOne request respondLog spec Entity) w = stopped
  ∧ run (patchOne jsonPatch_validate jsonPatch_applyPatch request respondLog
           spec Entity) w = stopped
  ∧ run (deleteOne request respondLog spec Entity) w = stopped.
Proof.
  intros entityId Hfind Hobj stopped.
  unfold run, putOne, patchOne, deleteOne. fold entityId.
  repeat split;
    rewrite run_bind; unfold call at 1; rewrite Hfind; cbn [fst snd app];
    rewrite run_bind; unfold lift, Sert_object; by destruct found.
Qed.

(** *** Middleware: what runs and what is handed to [next] *)

(** X5 (middleware, failed check): when [authenticate] throws, the only
    calls of the run are that of [authenticate] and that of [next] with the
    error: [validate] and the operation are not run.  When [validate]
    throws (authentication absent or passed), nothing follows but [next]
    with the error: the operation is not run. *)
Theorem express_failed_check_stops endpointFunction spec Entity req w :
  let request := requestView req in
  (∀ f e w1,
     authenticate spec = Some f → f request w = (Throw e, w1) →
     run (express endpointFunction spec Entity req) w
     = (Return (Some (forwarded 401 e)),
        (w1, [Event MAuthenticate [requestVal request] (Throw e);
              nextEvent (Some (forwarded 401 e))])))
  ∧ (∀ g e w0 w1 pre,
       (authenticate spec = None ∧ w0 = w ∧ pre = []
        ∨ ∃ f v, authenticate spec = Some f ∧ f request w = (Return v, w0)
                 ∧ pre = [Event MAuthenticate [requestVal request] (Return v)]) →
       validate spec = Some g → g request w0 = (Throw e, w1) →
       run (express endpointFunction spec Entity req) w
       = (Return (Some (forwarded 400 e)),
          (w1, (pre ++ [Event MValidate [requestVal request] (Throw e);
                        nextEvent (Some (forwarded 400 e))])%list))).
Proof.
  intros request. unfold run, express, forwarded, nextEvent. fold request. split.
  - intros f e w1 Hauth Hf. rewrite Hauth. unfold withStatus. monad.
    rewrite Hf. by destruct (truthy (status e)).
  - intros g e w0 w1 pre Hpre Hval Hg. rewrite Hval. unfold withStatus.
    destruct Hpre as [(Hauth & -> & ->) | (f & v & Hauth & Hf & ->)];
      rewrite Hauth; monad.
    + rewrite Hg. by destruct (truthy (status e)).
    + rewrite Hf, Hg. by destruct (truthy (status e)).
Qed.

Lemma express_after_checks endpointFunction spec Entity req w v st0 :
  expressChecks spec (requestView req) (w, []) = (Return v, st0) →
  express endpointFunction spec Entity req (w, [])
  = match endpointFunction (requestView req) expressRespond spec Entity st0 with
    | (Return _, (w1, tr1)) => (Return None, (w1, (tr1 ++ [nextEvent None])%list))
    | (Throw e, (w1, tr1)) =>
        (Return (Some e), (w1, (tr1 ++ [nextEvent (Some e)])%list))
    end.
Proof.
  unfold expressChecks, express, catch. cbv zeta. rewrite !run_bind.
  match goal with
  | |- context [match ?A (w, []) with _ => _ end] =>
      destruct (A (w, [])) as [[a|e] sta]
  end; [|done].
  intros Hchecks. rewrite run_bind, Hchecks, run_bind.
  destruct (endpointFunction _ _ _ _ st0) as [[x|e] [w1 tr1]]; [|done].
  by rewrite run_bind.
Qed.

(** X6 (middleware, operation): once the checks have passed, an error
    thrown by the operation is handed to [next] as it is, whatever its
    status, after the calls the operation made; an operation that returns
    is followed by one call of [next] without argument. *)
Theorem express_operation_outcome endpointFunction spec Entity req w v st0 w1 tr1 :
  expressChecks spec (requestView req) (w, []) = (Return v, st0) →
  (∀ e,
     endpointFunction (requestView req) expressRespond spec Entity st0
       = (Throw e, (w1, tr1)) →
     run (express endpointFunction spec Entity req) w
     = (Return (Some e), (w1, (tr1 ++ [nextEvent (Some e)])%list)))
  ∧ (∀ x,
       endpointFunction (requestView req) expressRespond spec Entity st0
         = (Return x, (w1, tr1)) →
       run (express endpointFunction spec Entity req) w
       = (Return None, (w1, (tr1 ++ [nextEvent None])%list))).
Proof.
  intros Hchecks. unfold run.
  rewrite (express_after_checks _ _ _ _ _ _ _ Hchecks).
  split; intros ? ->; done.
Qed.

(** *** get-many: paging, endpoint conditions, export *)

Lemma skipOf_orZero (q : gmap string jsval) :
  skipOf q = VNum (orZero (parseInt (getProp q "offset"))).
Proof.
  unfold skipOf, jsOr. destruct (parseInt (getProp q "offset")) as [|z]; [done|].
  simpl. by destruct (Z.eqb_spec z 0) as [->|Hz].
Qed.

Lemma limitOf_capped (q : gmap string jsval) :
  limitOf q = capped (parseInt (jsOr (getProp q "limit") (VNum (Int 25)))).
Proof.
  unfold limitOf. destruct (parseInt _) as [|z]; [done|]. simpl.
  destruct (Z.leb_spec z 500); f_equal; lia.
Qed.

(** X7 (get-many, paging): when [Entity.find] is reached, its [skip]
    option is [parseInt(query.offset)], or 0 when that is NaN, and its
    [limit] option is [parseInt(query.limit || 25)] capped at 500, NaN when
    that is NaN; a zero or negative limit or offset is handed on as it
    is. *)
Theorem getMany_paging_bounds request spec Entity w sort filter st1 :
  sortOf (query request) = Return sort →
  findFilter JSON_parse regexpCompiles request spec (w, []) = (Return filter, st1) →
  ∃ opts r,
    callsOf MFind
      (trace (getMany JSON_parse regexpCompiles request respondLog spec Entity) w)
    = [Event MFind [filter; VObj opts] r]
    ∧ opts !! "skip"
      = Some (VNum (orZero (parseInt (getProp (query request) "offset"))))
    ∧ opts !! "limit"
      = Some (VNum (capped (parseInt (jsOr (getProp (query request) "limit")
                                           (VNum (Int 25)))))).
Proof.
  intros Hsort Hfilter.
  destruct (getMany_find_call request spec Entity w sort filter st1 Hsort Hfilter)
    as [r Hr].
  eexists _, r. split; [exact Hr|]. split.
  - by rewrite lookup_insert_ne, lookup_insert_eq, skipOf_orZero.
  - by rewrite lookup_insert_eq, limitOf_capped.
Qed.

Lemma emits_round P (f : jsval → M (World:=World) jsval) slots rejected :
  (∀ x, emits P (f x)) → emits P (round f slots rejected).
Proof.
  intros Hf. revert rejected.
  induction slots as [|[x|] slots IH]; intros rejected; simpl.
  - apply emits_ret.
  - apply emits_bind; [by apply emits_settle | intros [y|e]];
      (apply emits_bind; [apply IH | intros [? ?]; apply emits_ret]).
  - apply emits_bind; [apply IH | intros [? ?]; apply emits_ret].
Qed.

Lemma emits_lockStep P (segments : list (jsval → M (World:=World) jsval))
    slots rejected :
  Forall (λ f, ∀ x, emits P (f x)) segments →
  emits P (lockStep segments slots rejected).
Proof.
  intros Hsegs. revert slots rejected.
  induction Hsegs as [|f segments Hf _ IH]; intros slots rejected; simpl.
  - apply emits_ret.
  - apply emits_bind; [by apply emits_round | intros [? ?]; apply IH].
Qed.

(** A call of one of the listed operations. *)
Ltac listed_call HP :=
  intros ?; apply HP; simpl;
  repeat first [apply list_elem_of_here | apply list_elem_of_further].

Lemma emits_patchManySegments P request Entity setProps :
  (∀ e, ev_method e ∈ callbackMethods → P e) →
  Forall (λ f, ∀ x, emits P (f x)) (patchManySegments request Entity setProps).
Proof.
  intros HP.
  assert (∀ x, emits P (patchManyCandidate request Entity setProps x)) as Hcand.
  { intros x. unfold patchManyCandidate, updateCandidate.
    repeat first
      [ apply emits_ret | apply emits_lift
      | apply emits_call; listed_call HP
      | apply emits_orIdentity; listed_call HP
      | apply emits_bind; [|intros ?] ]. }
  unfold patchManySegments. destruct (Entity_shouldUpdate Entity) as [g|];
    repeat constructor; intros x;
    repeat first
      [ apply Hcand | apply emits_ret
      | apply emits_call; listed_call HP
      | apply emits_orIdentity; listed_call HP
      | apply emits_bind; [|intros ?] ].
Qed.

(** What [patchMany] does once [find] has returned. *)
Lemma emits_patchMany_rest P request spec Entity existingEntities :
  (∀ e, ev_method e ∈ MSpecSet :: MRespond :: MDidUpdate :: callbackMethods → P e) →
  emits P
    (if negb (truthy existingEntities) then respondLog status200 VUndefined
     else
       setProps ← orStubObject MSpecSet (specSet spec) request;
       match existingEntities with
       | VArr records =>
           '(slots, rejected) ←
             lockStep (patchManySegments request Entity setProps)
                      (Some <$> records) None;
           match rejected with
           | Some e => throw e
           | None =>
               let exportEntities := omap id slots in
               respondLog status200 (VArr exportEntities);;
               match Entity_didUpdate Entity with
               | Some d =>
                   mapM (λ x, call MDidUpdate [x] (d x)) exportEntities;;
                   mret VUndefined
               | None => mret VUndefined
               end
           end
       | _ => throw (newError "existingEntities.map is not a function")
       end).
Proof.
  intros HP. destruct (negb (truthy existingEntities)).
  { apply emits_respondLog. listed_call HP. }
  apply emits_bind; [apply emits_orStubObject; listed_call HP | intros setProps].
  destruct existingEntities; try apply emits_throw.
  apply emits_bind.
  { apply emits_lockStep, emits_patchManySegments.
    intros e He. apply HP. by do 3 apply list_elem_of_further. }
  intros [slots [e|]]; [apply emits_throw|]. cbv zeta.
  apply emits_bind; [apply emits_respondLog; listed_call HP | intros ?].
  destruct (Entity_didUpdate Entity) as [d|]; [|apply emits_ret].
  apply emits_bind; [|intros ?; apply emits_ret].
  apply emits_mapM. intros x. apply emits_call. listed_call HP.
Qed.

(** When the filter is built without error, [patchMany] calls
    [Entity.find] exactly once, with that filter alone. *)
Lemma patchMany_find_call request spec Entity w filter st1 :
  findFilter JSON_parse regexpCompiles request spec (w, []) = (Return filter, st1) →
  ∃ r, callsOf MFind
         (trace (patchMany JSON_parse regexpCompiles request respondLog spec Entity) w)
       = [Event MFind [filter] r].
Proof.
  intros Hfilter. unfold trace, run, patchMany.
  rewrite run_bind, Hfilter.
  destruct (emits_findFilter request spec (w, [])) as (evs1 & E1 & F1).
  rewrite Hfilter in E1. destruct st1 as [w1 tr1]. simpl in E1. subst tr1.
  rewrite run_bind. unfold call at 1.
  destruct (Entity_find Entity filter VUndefined w1) as [r w2]. exists r.
  assert (callsOf MFind evs1 = []) as Hpre.
  { apply callsOf_none. eapply Forall_impl; [exact F1|]. simpl. by intros e ->. }
  destruct r as [existingEntities|e]; simpl.
  - destruct (emits_patchMany_rest (λ e, ev_method e ≠ MFind) request spec Entity
                existingEntities) with (st := (w2, (evs1 ++ [Event MFind [filter]
                                                   (Return existingEntities)])%list))
      as (evs2 & E2 & F2).
    { intros e He Hm. rewrite Hm in He. unfold callbackMethods in He.
      repeat (apply elem_of_cons in He as [He|He]; [discriminate He|]).
      by apply elem_of_nil in He. }
    simpl in E2. rewrite E2, !callsOf_app, Hpre, (callsOf_none _ evs2 F2). done.
  - by rewrite callsOf_app, Hpre.
Qed.

(** X8 (endpoint conditions): in [getMany] and in [patchMany] the filter
    handed to [Entity.find] holds every key of the endpoint's [query]
    result with the value given there; the query string, also through its
    [q], only decides the other keys. *)
Theorem endpoint_conditions_win request spec Entity w sort conditions f extra w1 :
  sortOf (query request) = Return sort →
  filterConditions JSON_parse regexpCompiles (query request) = Return conditions →
  specQuery spec = Some f →
  f request w = (Return extra, w1) →
  ∃ m, endpointOver extra conditions m
       ∧ (∃ opts r,
            callsOf MFind
              (trace (getMany JSON_parse regexpCompiles request respondLog spec
                        Entity) w)
            = [Event MFind [VObj m; opts] r])
       ∧ (∃ r,
            callsOf MFind
              (trace (patchMany JSON_parse regexpCompiles request respondLog spec
                        Entity) w)
            = [Event MFind [VObj m] r]).
Proof.
  intros Hsort Hcond Hspec Hf.
  assert (findFilter JSON_parse regexpCompiles request spec (w, [])
          = (Return (VObj (ownProps extra ∪ ownProps conditions)),
             (w1, [Event MSpecQuery [requestVal request] (Return extra)])))
    as Hfilter.
  { unfold findFilter. rewrite Hcond, Hspec. monad. unfold call.
    by rewrite Hf. }
  exists (ownProps extra ∪ ownProps conditions). split; [|split].
  - intros k. rewrite lookup_union.
    destruct (ownProps extra !! k) as [v|]; [|by rewrite (left_id_L None _)].
    by destruct (ownProps conditions !! k).
  - destruct (getMany_find_call request spec Entity w sort _ _ Hsort Hfilter)
      as [r Hr]. eauto.
  - destruct (patchMany_find_call request spec Entity w _ _ Hfilter) as [r Hr].
    eauto.
Qed.

Lemma callsOf_all m tr :
  Forall (λ e, ev_method e = m) tr → callsOf m tr = tr.
Proof.
  induction 1 as [|e tr He _ IH]; [done|].
  unfold callsOf in *. by rewrite filter_cons_True, IH.
Qed.

(** Mapping the exporter over the entities calls it on each, in order,
    whatever the calls return. *)
Lemma exportOne_mapped (f : jsval → ext (World:=World) jsval) items st :
  ∃ rs st' evs,
    mapM (λ x, settle (orIdentity MExportOne (Some f) x)) items st
      = (Return rs, st')
    ∧ st'.2 = (st.2 ++ evs)%list
    ∧ Forall2 (λ e x, ev_method e = MExportOne ∧ ev_args e = [x]) evs items.
Proof.
  revert st. induction items as [|x items IH]; intros [w tr].
  - exists [], (w, tr), []. by rewrite app_nil_r.
  - cbn [mapM]. rewrite run_bind. unfold settle at 1, orIdentity at 1, call.
    destruct (f x w) as [r w'].
    destruct (IH (w', (tr ++ [Event MExportOne [x] r])%list))
      as (rs & st' & evs & Hrun & Htr & Hall).
    rewrite run_bind, Hrun.
    exists (r :: rs), st', (Event MExportOne [x] r :: evs).
    split; [done|]. split.
    + rewrite Htr. simpl. by rewrite <- app_assoc.
    + by constructor.
Qed.

(** X9 (get-many, export): without a batch exporter, [exportOne] is called
    on every entity [find] returned, once each and in their order, also
    when the export of an earlier entity throws. *)
Theorem getMany_exports_every_entity request spec Entity w sort filter w1 tr1
    items w2 f :
  sortOf (query request) = Return sort →
  findFilter JSON_parse regexpCompiles request spec (w, [])
    = (Return filter, (w1, tr1)) →
  Entity_find Entity filter (findOptions (query request) sort) w1
    = (Return (VArr items), w2) →
  Entity_exportMany Entity = None →
  Entity_exportOne Entity = Some f →
  Forall2 (λ e x, ev_args e = [x])
    (callsOf MExportOne
       (trace (getMany JSON_parse regexpCompiles request respondLog spec Entity) w))
    items.
Proof.
  intros Hsort Hfilter Hfind Hmany Hone. unfold trace, run, getMany. cbv zeta.
  rewrite Hsort, run_bind. unfold lift at 1. rewrite run_bind, Hfilter.
  destruct (emits_findFilter request spec (w, [])) as (evs1 & E1 & F1).
  rewrite Hfilter in E1. simpl in E1. subst tr1.
  rewrite run_bind. unfold call at 1. fold (findOptions (query request) sort).
  rewrite Hfind. cbn [fst snd]. unfold exportAll. rewrite Hmany, Hone.
  set (st := (w2, _)).
  destruct (exportOne_mapped f items st) as (rs & [w3 tr3] & evs & Hrun & Htr & Hall).
  assert (callsOf MExportOne tr3 = evs) as Hcalls.
  { simpl in Htr. rewrite Htr. unfold st. simpl.
    rewrite !callsOf_app, (callsOf_none _ evs1), (callsOf_all _ evs).
    - done.
    - eapply Forall2_Forall_l; [exact Hall|]. apply Forall_true. by intros ? ? [? ?].
    - eapply Forall_impl; [exact F1|]. simpl. by intros e ->. }
  assert (Forall2 (λ e x, ev_args e = [x]) evs items) as Hargs.
  { eapply Forall2_impl; [exact Hall|]. by intros ? ? [? ?]. }
  rewrite run_bind. unfold promiseAllMap. rewrite run_bind, run_bind, Hrun.
  unfold lift. destruct (mapM id rs) as [exported|e]; simpl.
  - unfold respondLog, call. simpl. rewrite callsOf_app, Hcalls.
    by rewrite app_nil_r.
  - by rewrite Hcalls.
Qed.

(** *** create: the candidate *)

Lemma omitUndefined_createLiteral body setProps :
  omitUndefined (VObj (<["_links" := VUndefined]>
                      (<["_embedded" := VUndefined]>
                      (ownProps setProps ∪ ownProps body))))
  = createCandidate body setProps.
Proof.
  unfold omitUndefined, createCandidate, ownProps at 1.
  rewrite map_filter_insert_False by (simpl; done).
  rewrite !map_filter_delete.
  rewrite map_filter_insert_False by (simpl; done).
  by rewrite !map_filter_delete.
Qed.

Lemma createCandidate_lookup body setProps k :
  createCandidate body setProps !! k
  = if decide (k = "_links" ∨ k = "_embedded") then None
    else v ← (ownProps setProps ∪ ownProps body) !! k;
         if isUndefined v then None else Some v.
Proof.
  unfold createCandidate. rewrite map_lookup_filter.
  destruct (decide (k = "_links" ∨ k = "_embedded")) as [[-> | ->]|Hk].
  - by rewrite (lookup_delete_eq (M:=gmap string)).
  - by rewrite lookup_delete_ne, (lookup_delete_eq (M:=gmap string)).
  - rewrite !lookup_delete_ne by (intros <-; apply Hk; auto).
    destruct ((ownProps setProps ∪ ownProps body) !! k) as [v|]; [|done].
    simpl. by destruct v.
Qed.

(** A trace made of calls as [createEvent c] allows, among them the
    validation of [c] over the placeholder id. *)
Lemma createEvent_validated c (tr : list event) :
  (∃ pre r evs,
     tr = (pre ++ Event MAssertValid [withPlaceholderId c; invalidProps] r
               :: evs)%list
     ∧ Forall (createEvent c) pre ∧ Forall (createEvent c) evs) →
  Forall (createEvent c) tr
  ∧ ∃ r, Event MAssertValid [withPlaceholderId c; invalidProps] r ∈ tr.
Proof.
  intros (pre & r & evs & -> & Hpre & Hevs). split.
  - apply Forall_app. split; [done|]. constructor; [|done].
    split; [done | by intros [?|?]].
  - exists r. apply elem_of_app. right. apply list_elem_of_here.
Qed.

(** A call as [createEvent c] sees it: no validation, and no guard or
    storage call of a create, or one that receives [c]. *)
Ltac create_call :=
  intros ?; split;
    [ by intros ?
    | first [ by intros [?|?] | intros _; eexists; reflexivity ] ].

(** X10 (create, candidate): without a [prepareCreate] hook and with
    [setProps] what the endpoint's [set] returned in this run, the candidate
    is the body overridden by every key of [setProps], without [_embedded],
    [_links] and undefined-valued keys; [assertValid] is called on that
    candidate over the placeholder id, and on nothing else, and the guard
    and [createOne] receive that candidate.  No id is forced: an [id] of
    the body that [set] does not override stays in the candidate handed to
    [createOne]. *)
Theorem postOne_candidate request spec Entity w setProps w1 :
  Entity_prepareCreate Entity = None →
  setReturns spec request w setProps w1 →
  let c := createCandidate (body request) setProps in
  let tr := trace (postOne request respondLog spec Entity) w in
  (Forall (createEvent (VObj c)) tr
   ∧ ∃ r, Event MAssertValid [withPlaceholderId (VObj c); invalidProps] r ∈ tr)
  ∧ c !! "_embedded" = None ∧ c !! "_links" = None
  ∧ (∀ k v, k ≠ "_embedded" → k ≠ "_links" →
            ownProps setProps !! k = Some v →
            c !! k = if isUndefined v then None else Some v)
  ∧ (∀ v, ownProps setProps !! "id" = None →
          ownProps (body request) !! "id" = Some v → v ≠ VUndefined →
          c !! "id" = Some v).
Proof.
  intros Hnone Hset c tr. split.
  - apply createEvent_validated. unfold tr, trace, run, postOne.
    destruct (setReturns_run spec request w setProps w1 [] Hset)
      as (evsS & ES & FS).
    rewrite run_bind, ES. cbv beta iota. rewrite Hnone.
    rewrite run_bind. unfold orIdentity at 1, mret at 1, M_ret at 1.
    cbv beta iota. rewrite omitUndefined_createLiteral. cbv zeta. fold c.
    rewrite run_bind. unfold call at 1.
    destruct (Entity_assertValid _ _ _ _) as [[v|e] w2]; cbv beta iota.
    + match goal with
      | |- context [(?m ≫= ?K) (w2, ?tr0)] =>
          assert (emits (createEvent (VObj c)) (m ≫= K)) as Hrest;
          [|destruct (Hrest (w2, tr0)) as (evs & E & F)]
      end.
      { repeat first
          [ apply emits_call; create_call
          | apply emits_orIdentity; create_call
          | apply emits_guard; create_call
          | apply emits_notify; create_call
          | apply emits_respondLog; create_call
          | apply emits_bind; [|intros ?] ]. }
      rewrite E. cbn [fst snd]. rewrite <- app_assoc.
      eexists _, (Return v), evs. split; [reflexivity|]. split; [|done].
      eapply Forall_impl; [exact FS|]. simpl.
      intros e0 He. split; [by rewrite He | by rewrite He; intros [?|?]].
    + cbn [fst snd].
      eexists _, (Throw e), []. split; [reflexivity|]. split; [|done].
      eapply Forall_impl; [exact FS|]. simpl.
      intros e0 He. split; [by rewrite He | by rewrite He; intros [?|?]].
  - unfold c. repeat split.
    + by rewrite createCandidate_lookup.
    + by rewrite createCandidate_lookup.
    + intros k v Hemb Hlinks Hk. rewrite createCandidate_lookup.
      rewrite decide_False by (by intros [-> | ->]).
      by rewrite (lookup_union_Some_l _ _ _ _ Hk).
    + intros v Hk Hbody Hv. rewrite createCandidate_lookup.
      rewrite decide_False by (by intros [? | ?]).
      rewrite (lookup_union_r _ _ _ Hk), Hbody. simpl. by destruct v.
Qed.

(** *** Notifications *)

Lemma notified_none didM res tr :
  Forall (λ e, ev_method e ≠ didM) tr → notifiedAfterResponse didM res tr.
Proof.
  intros Htr v r Hin. rewrite Forall_forall in Htr. by destruct (Htr _ Hin).
Qed.

Lemma notified_bind {A} didM (pre : M A) (tail : A → M jsval) :
  emits (λ e, ev_method e ≠ didM) pre →
  (∀ a st, Forall (λ e, ev_method e ≠ didM) st.2 →
           notifiedAfterResponse didM (tail a st).1 (tail a st).2.2) →
  ∀ st, Forall (λ e, ev_method e ≠ didM) st.2 →
        notifiedAfterResponse didM ((pre ≫= tail) st).1 ((pre ≫= tail) st).2.2.
Proof.
  intros Hpre Htail st Hst. rewrite run_bind.
  destruct (Hpre st) as (evs & E & F).
  destruct (pre st) as [[a|e] st1]; simpl in E.
  - apply Htail. rewrite E. by apply Forall_app.
  - apply notified_none. simpl. rewrite E. by apply Forall_app.
Qed.

(** The response, then the notification. *)
Lemma notified_tail didM (hook : option (jsval → ext (World:=World) jsval))
    s x v (st : World * list event) :
  Forall (λ e, ev_method e ≠ didM) st.2 →
  didM ≠ MRespond →
  notifiedAfterResponse didM
    ((respondLog s x;; notify didM hook v) st).1
    ((respondLog s x;; notify didM hook v) st).2.2.
Proof.
  intros Hst Hne. destruct st as [w tr]. rewrite run_bind.
  unfold respondLog, call at 1. cbn [fst snd]. unfold notify.
  destruct hook as [h|].
  - unfold call. destruct (h v w) as [r w']. cbn [fst snd].
    intros v' r' Hin. rewrite !elem_of_app in Hin.
    destruct Hin as [[Hin|Hin]|Hin].
    + rewrite Forall_forall in Hst. by destruct (Hst _ Hin).
    + apply list_elem_of_singleton in Hin. injection Hin as Hm _ _.
      by destruct (Hne Hm).
    + apply list_elem_of_singleton in Hin. injection Hin as -> ->.
      split; [by rewrite last_snoc|]. split.
      * exists s, x. rewrite <- app_assoc. apply beforeLast_snoc2.
      * by intros e ->.
  - apply notified_none. simpl. apply Forall_app. split; [done|].
    constructor; [|done]. simpl. intros Hm. by destruct Hne.
Qed.

(** X11 (notifications): in [postOne], [putOne], [patchOne] and
    [deleteOne], a call of the notification hook ([didCreate],
    [didUpdate], [didDelete]) is the last call of the run and comes right
    after the call of [respond]; when the hook throws, the handler throws
    that error although the response has been given. *)
Theorem notification_follows_response request spec Entity w :
  notifiedAfterResponse MDidCreate
    (result (postOne request respondLog spec Entity) w)
    (trace (postOne request respondLog spec Entity) w)
  ∧ notifiedAfterResponse MDidUpdate
      (result (putOne request respondLog spec Entity) w)
      (trace (putOne request respondLog spec Entity) w)
  ∧ notifiedAfterResponse MDidUpdate
      (result (patchOne jsonPatch_validate jsonPatch_applyPatch request
                 respondLog spec Entity) w)
      (trace (patchOne jsonPatch_validate jsonPatch_applyPatch request
                respondLog spec Entity) w)
  ∧ notifiedAfterResponse MDidDelete
      (result (deleteOne request respondLog spec Entity) w)
      (trace (deleteOne request respondLog spec Entity) w).
Proof.
  unfold result, trace, run, postOne, putOne, patchOne, deleteOne. cbv zeta.
  split; [|split; [|split]].
  - do 6 (apply notified_bind; [emits_auto | intros ? ? ? | done]).
    by apply notified_tail.
  - do 8 (apply notified_bind;
            [unfold updateCandidate; emits_auto | intros ? ? ? | done]).
    by apply notified_tail.
  - apply notified_bind; [emits_auto | intros ? ? ? | done].
    apply notified_bind; [emits_auto | intros ? ? ? | done].
    apply notified_bind; [emits_auto | intros [? ?] ? ? | done].
    do 6 (apply notified_bind;
            [unfold updateCandidate; emits_auto | intros ? ? ? | done]).
    by apply notified_tail.
  - do 4 (apply notified_bind; [emits_auto | intros ? ? ? | done]).
    by apply notified_tail.
Qed.

(** *** Filter translator: values that are not strings, keys of the result *)

Lemma filterStep_non_string prop v conditions :
  isReserved prop = false → v ≠ VUndefined → isString v = false →
  ∃ e, filterStep regexpCompiles prop v conditions = Throw e.
Proof.
  intros Hres Hv Hs. unfold filterStep. rewrite Hres.
  destruct v; try done; by eexists.
Qed.

(** X12 (filter translator, value that is not a string): with [q] falsy,
    a defined value that is not a string under a key that is not reserved
    (an array from a repeated parameter, say) makes [filterConditions]
    throw; under a reserved key it is not looked at. *)
Theorem filterConditions_rejects_non_string (q : gmap string jsval) k v :
  truthy (getProp q "q") = false →
  q !! k = Some v →
  isReserved k = false → v ≠ VUndefined → isString v = false →
  ∃ e, filterConditions JSON_parse regexpCompiles q = Throw e.
Proof.
  intros Hq Hk Hres Hv Hs. unfold filterConditions. rewrite Hq.
  cut (∃ e, map_fold (λ prop v acc, c ← acc; filterStep regexpCompiles prop v c)
                     (Return ∅) q = Throw e).
  { intros [e ->]. by exists e. }
  revert Hk.
  apply (map_fold_weak_ind
    (λ r (m : gmap string jsval), m !! k = Some v → ∃ e, r = Throw e)).
  - by rewrite lookup_empty.
  - intros i x m r Hi IH Hin. destruct (decide (i = k)) as [->|Hne].
    + rewrite lookup_insert_eq in Hin. injection Hin as ->.
      destruct r as [c|e]; [|by exists e].
      by apply filterStep_non_string.
    + rewrite lookup_insert_ne in Hin by done.
      destruct (IH Hin) as [e ->]. by exists e.
Qed.

Lemma filterStep_keys prop v c c' :
  filterStep regexpCompiles prop v c = Return c' →
  (isReserved prop = false ∧ isString v = true ∧ ∃ x, c' = <[prop := x]> c)
  ∨ ((isReserved prop = true ∨ v = VUndefined) ∧ c' = c).
Proof.
  unfold filterStep. destruct (isReserved prop) eqn:Hres.
  { intros [= <-]. right. auto. }
  destruct v; try done.
  { intros [= <-]. right. auto. }
  intros Hstep. left. split; [done|]. split; [done|].
  destruct (String.eqb s "undefined"); [injection Hstep as <-; by eexists|].
  destruct (String.eqb s "true"); [injection Hstep as <-; by eexists|].
  destruct (String.eqb s "false"); [injection Hstep as <-; by eexists|].
  destruct (regexpSyntax s) as [[src fl]|]; [|injection Hstep as <-; by eexists].
  destruct (newRegExp regexpCompiles src fl) as [re|e]; [|done].
  injection Hstep as <-. by eexists.
Qed.

(** X13 (filter translator, keys of the result): with [q] falsy, when
    [filterConditions] returns, its result is an object whose keys are
    exactly the keys of the query that are not reserved and hold a string;
    so [limit], [offset], [sort] and [q] are never among them. *)
Theorem filterConditions_keys (q : gmap string jsval) res :
  truthy (getProp q "q") = false →
  filterConditions JSON_parse regexpCompiles q = Return res →
  ∃ conditions,
    res = VObj conditions
    ∧ ∀ k, is_Some (conditions !! k)
           ↔ isReserved k = false ∧ ∃ s, q !! k = Some (VStr s).
Proof.
  intros Hq. unfold filterConditions. rewrite Hq.
  destruct (map_fold _ _ q) as [c|e] eqn:Hfold; [|done].
  intros [= <-]. exists c. split; [done|]. revert c Hfold.
  apply (map_fold_weak_ind
    (λ r (m : gmap string jsval), ∀ c, r = Return c →
       ∀ k, is_Some (c !! k)
            ↔ isReserved k = false ∧ ∃ s, m !! k = Some (VStr s))).
  - intros c [= <-] k. rewrite !lookup_empty. split.
    + by intros [? ?].
    + by intros [_ [? ?]].
  - intros i x m r Hi IH c' Hstep k.
    destruct r as [c|e]; [|done]. specialize (IH c eq_refl).
    destruct (filterStep_keys _ _ _ _ Hstep)
      as [(Hres & Hs & y & ->) | (Hskip & ->)].
    + destruct (decide (k = i)) as [->|Hne].
      * rewrite !lookup_insert_eq. split; [|by eexists].
        intros _. split; [done|]. destruct x; try done. by eexists.
      * rewrite !lookup_insert_ne by done. apply IH.
    + rewrite IH. destruct (decide (k = i)) as [->|Hne].
      * rewrite lookup_insert_eq, Hi. split.
        -- by intros [_ [? ?]].
        -- intros [Hres [s [= ->]]]. by destruct Hskip as [Hr | Hu]; [rewrite Hr in Hres|].
      * by rewrite lookup_insert_ne.
Qed.

Lemma cuts_append s a b : (a, b) ∈ cuts s → a ++ b = s.
Proof.
  revert a b. induction s as [|c r IH]; intros a b; simpl.
  - intros Hin. apply list_elem_of_singleton in Hin. by injection Hin as -> ->.
  - intros Hin. apply elem_of_app in Hin as [Hin|Hin].
    + apply list_elem_of_fmap in Hin as ([a' b'] & Heq & Hin).
      injection Heq as -> ->. simpl.
      change (String c a' ++ b') with (String c (a' ++ b')).
      by rewrite (IH a' b').
    + apply list_elem_of_singleton in Hin. by injection Hin as -> ->.
Qed.

Lemma closingFlags_Some rest fl :
  closingFlags rest = Some fl → rest = String "/" fl ∧ allFlags fl = true.
Proof.
  unfold closingFlags. destruct rest as [|c r]; [done|].
  destruct c as [[] [] [] [] [] [] [] []]; try done.
  destruct (allFlags r) eqn:Hfl; [|done]. by intros [= ->].
Qed.

(** X14 (filter translator, the pattern of a regular expression value):
    the pattern matches exactly the strings made of a slash, a part without
    line terminator, a slash, and flags among [g], [i], [m], [u], [y] up to
    the end; group 1 is that part and group 2 the last flag only. *)
Theorem regexpSyntax_match s src f :
  regexpSyntax s = Some (src, f)
  ↔ ∃ fl, s = String "/" (src ++ String "/" fl)
          ∧ noLineTerminator src = true ∧ allFlags fl = true
          ∧ f = lastFlag fl.
Proof.
  split.
  - unfold regexpSyntax. destruct s as [|c r]; [done|].
    destruct c as [[] [] [] [] [] [] [] []]; try done.
    destruct (list_find _ (cuts r)) as [[i [a b]]|] eqn:Hfind; [|done].
    apply list_find_Some in Hfind as (Hi & [Ha _] & _).
    apply list_elem_of_lookup_2, cuts_append in Hi. simpl in Ha.
    destruct (closingFlags b) as [fl|] eqn:Hb; [|done].
    apply closingFlags_Some in Hb as [-> Hfl].
    intros [= <- <-]. exists fl. by rewrite Hi.
  - intros (fl & -> & Hsrc & Hfl & ->).
    rewrite regexpSyntax_shape.
    by rewrite (regexpShape_delimited src fl Hsrc Hfl).
Qed.

(** *** Queries that cannot be translated *)

(** X15 (get-many and patch-many, query that raises an error): when
    [filterConditions] throws on the query string, [getMany] and
    [patchMany] throw without having made any call: storage is not read,
    the endpoint's [query] is not consulted, nothing is responded.
    [getMany] throws the error of the sort when that one throws too. *)
Theorem untranslatable_query_stops request spec Entity w e :
  filterConditions JSON_parse regexpCompiles (query request) = Throw e →
  run (getMany JSON_parse regexpCompiles request respondLog spec Entity) w
  = (Throw (match sortOf (query request) with Throw e' => e' | Return _ => e end),
     (w, []))
  ∧ run (patchMany JSON_parse regexpCompiles request respondLog spec Entity) w
    = (Throw e, (w, [])).
Proof.
  intros Hq. unfold run, getMany, patchMany, findFilter. cbv zeta. split.
  - rewrite run_bind. unfold lift at 1.
    destruct (sortOf (query request)) as [sort|e']; [|done].
    rewrite !run_bind. unfold lift. by rewrite Hq.
  - rewrite !run_bind. unfold lift. by rewrite Hq.
Qed.

(** *** The two revisions of the filter translator *)

Lemma foldr_agree {A B} (f g : A → B → B) b (l : list A) :
  (∀ x y, x ∈ l → f x y = g x y) → foldr f b l = foldr g b l.
Proof.
  induction l as [|x l IH]; intros Hfg; simpl; [done|].
  rewrite IH.
  - apply Hfg, list_elem_of_here.
  - intros y z Hy. by apply Hfg, list_elem_of_further.
Qed.

(** X16 (filter translator, against the earlier revision): on a query
    string without the keys [limit], [offset], [sort] and [q], the
    translator gives what the translator of the earlier revision gives,
    errors included. *)
Theorem filterConditions_as_earlier (q : gmap string jsval) :
  (∀ k, is_Some (q !! k) → isReserved k = false) →
  filterConditions JSON_parse regexpCompiles q
  = Earlier.filterConditions regexpCompiles q.
Proof.
  intros Hkeys. unfold filterConditions, Earlier.filterConditions, getProp.
  destruct (q !! "q") as [v|] eqn:Hq.
  { by specialize (Hkeys "q" (mk_is_Some _ _ Hq)). }
  simpl. f_equal. rewrite !map_fold_foldr. apply foldr_agree.
  intros [k v] acc Hin. apply elem_of_map_to_list in Hin. simpl.
  destruct acc as [c|e]; [|done]. simpl.
  unfold filterStep. by rewrite (Hkeys k (mk_is_Some _ _ Hin)).
Qed.

(** *** put-one against patch-one *)

Lemma asUpdateOf_bind {A B} (m1 m2 : M (World:=World) A)
    (f1 f2 : A → M (World:=World) B) :
  asUpdateOf m1 m2 → (∀ a, asUpdateOf (f1 a) (f2 a)) →
  asUpdateOf (m1 ≫= f1) (m2 ≫= f2).
Proof.
  intros Hm Hf w tr. rewrite !run_bind, Hm.
  destruct (m2 (w, tr)) as [[a|e] [w' tr']]; simpl; [apply Hf | done].
Qed.

Lemma asUpdateOf_lift {A} (o : outcome A) :
  asUpdateOf (World:=World) (lift o) (lift o).
Proof. by intros w tr. Qed.

Lemma asUpdateOf_call m args (f : ext (World:=World) jsval) :
  m ≠ MReplaceOne → asUpdateOf (call m args f) (call m args f).
Proof.
  intros Hm w tr. unfold call. destruct (f w) as [r w']. simpl.
  rewrite fmap_app. simpl. unfold asUpdate at 3. simpl. by destruct m.
Qed.

Lemma asUpdateOf_replace args (f : ext (World:=World) jsval) :
  asUpdateOf (call MUpdateOne args f) (call MReplaceOne args f).
Proof.
  intros w tr. unfold call. destruct (f w) as [r w']. simpl.
  by rewrite fmap_app.
Qed.

(** Relate two runs step by step. *)
Ltac same_steps :=
  repeat first
    [ apply asUpdateOf_lift
    | apply asUpdateOf_replace
    | apply asUpdateOf_call; discriminate
    | apply asUpdateOf_bind; [|intros ?]
    | match goal with
      | |- asUpdateOf (match ?h with _ => _ end) _ => destruct h
      end ].

(** X17 (put-one against patch-one): on a body that is not an array,
    [patchOne] makes the calls of [putOne] with the same arguments and
    outcomes, except that the storage call is [updateOne] where [putOne]
    calls [replaceOne]; the result and the final state are the same when
    both storage operations behave alike. *)
Theorem patchOne_object_body_as_putOne request spec Entity w :
  isArray (body request) = false →
  run (patchOne jsonPatch_validate jsonPatch_applyPatch request respondLog spec
         Entity) w
  = let r := run (putOne request respondLog spec
                    (withReplaceOne Entity (Entity_updateOne Entity))) w in
    (r.1, (r.2.1, asUpdate <$> r.2.2)).
Proof.
  intros Hbody. cbv zeta. unfold run.
  change (@nil event) with (asUpdate <$> @nil event) at 1.
  revert w. generalize (@nil event). intros tr w. revert w tr.
  change (asUpdateOf
    (patchOne jsonPatch_validate jsonPatch_applyPatch request respondLog spec
       Entity)
    (putOne request respondLog spec
       (withReplaceOne Entity (Entity_updateOne Entity)))).
  unfold patchOne, putOne. rewrite Hbody. cbv zeta.
  apply asUpdateOf_bind; [same_steps | intros existingEntity].
  apply asUpdateOf_bind; [same_steps | intros _].
  intros w tr. rewrite run_bind. unfold mret at 1, M_ret at 1. revert w tr.
  unfold updateCandidate, orStubObject, orIdentity, guard, notify, respondLog,
    withReplaceOne. simpl.
  same_steps.
Qed.

(** *** Which storage operation a handler writes through *)

(** Discharge [emits (handlerCall own) m] call by call. *)
Ltac handler_calls :=
  repeat first
    [ apply emits_ret | apply emits_lift | apply emits_throw
    | apply emits_call; intros ?; by split
    | apply emits_bind; [|intros ?]
    | match goal with
      | |- emits _ (match ?h with _ => _ end) => destruct h
      end ].

(** X18 (handlers, storage writes): [getOne] and [getMany] make no storage
    write; [postOne] writes through [createOne] only, [putOne] through
    [replaceOne] only, [patchOne] and [patchMany] through [updateOne] only,
    [deleteOne] through [deleteOne] only; none calls the middleware's
    [authenticate], [validate] or [next]. *)
Theorem handlers_write_through_own_operation request spec Entity w :
  Forall (handlerCall None)
         (trace (getOne request respondLog spec Entity) w)
  ∧ Forall (handlerCall None)
           (trace (getMany JSON_parse regexpCompiles request respondLog spec
                     Entity) w)
  ∧ Forall (handlerCall (Some MCreateOne))
           (trace (postOne request respondLog spec Entity) w)
  ∧ Forall (handlerCall (Some MReplaceOne))
           (trace (putOne request respondLog spec Entity) w)
  ∧ Forall (handlerCall (Some MUpdateOne))
           (trace (patchOne jsonPatch_validate jsonPatch_applyPatch request
                     respondLog spec Entity) w)
  ∧ Forall (handlerCall (Some MUpdateOne))
           (trace (patchMany JSON_parse regexpCompiles request respondLog spec
                     Entity) w)
  ∧ Forall (handlerCall (Some MDeleteOne))
           (trace (deleteOne request respondLog spec Entity) w).
Proof.
  split; [|split; [|split; [|split; [|split; [|split]]]]]; apply emits_trace.
  - unfold getOne, orIdentity, respondLog. cbv zeta. handler_calls.
  - unfold getMany, findFilter, exportAll, orIdentity, orStubObject, respondLog.
    cbv zeta.
    repeat first
      [ apply emits_ret | apply emits_lift | apply emits_throw
      | apply emits_call; intros ?; by split
      | apply emits_promiseAllMap; intros ?
      | apply emits_bind; [|intros ?]
      | match goal with
        | |- emits _ (match ?h with _ => _ end) => destruct h
        end ].
  - unfold postOne, orIdentity, orStubObject, guard, notify, respondLog.
    handler_calls.
  - unfold putOne, updateCandidate, orIdentity, orStubObject, guard, notify,
      respondLog. cbv zeta. handler_calls.
  - unfold patchOne, updateCandidate, orIdentity, orStubObject, guard, notify,
      respondLog. cbv zeta. handler_calls.
  - unfold patchMany.
    apply emits_bind.
    { unfold findFilter, orStubObject. handler_calls. }
    intros filter. apply emits_bind; [apply emits_call; intros ?; by split|].
    intros existingEntities. apply emits_patchMany_rest.
    intros e He. unfold callbackMethods in He.
    repeat (apply elem_of_cons in He as [He|He];
            [by split; [unfold writesThrough; rewrite He | rewrite He]|]).
    by apply elem_of_nil in He.
  - unfold deleteOne, guard, notify, respondLog. cbv zeta. handler_calls.
Qed.

(** *** patch-many: every matched record is reconciled *)

Lemma callsOf_cons_same m args r tr :
  callsOf m (Event m args r :: tr) = Event m args r :: callsOf m tr.
Proof. unfold callsOf. by rewrite filter_cons_True. Qed.

(** The first segment of a callback starts with the reconciliation of its
    record, and reconciles nothing else. *)
Lemma callback_starts_with_reset request Entity setProps
    (f : jsval → M (World:=World) jsval) :
  head (patchManySegments request Entity setProps) = Some f →
  ∀ x st, ∃ r evs,
    (f x st).2.2 = (st.2 ++ Event MResetReadOnly [body request; x] r :: evs)%list
    ∧ Forall (λ e, ev_method e ≠ MResetReadOnly) evs.
Proof.
  intros Hf x [w tr].
  assert (∀ (K : jsval → M (World:=World) jsval),
            (∀ a, emits (λ e, ev_method e ≠ MResetReadOnly) (K a)) →
            ∃ r evs,
              ((call MResetReadOnly [body request; x]
                  (Entity_resetReadOnly Entity (body request) x) ≫= K) (w, tr)).2.2
              = (tr ++ Event MResetReadOnly [body request; x] r :: evs)%list
              ∧ Forall (λ e, ev_method e ≠ MResetReadOnly) evs) as Hstart.
  { intros K HK. rewrite run_bind. unfold call at 1.
    destruct (Entity_resetReadOnly Entity (body request) x w) as [r w'].
    exists r. destruct r as [a|e].
    - destruct (HK a (w', (tr ++ [Event MResetReadOnly [body request; x]
                                    (Return a)])%list)) as (evs & E & F).
      exists evs. split; [|done]. rewrite E. simpl. by rewrite <- app_assoc.
    - by exists []. }
  unfold patchManySegments in Hf.
  destruct (Entity_shouldUpdate Entity) as [g|]; injection Hf as <-;
    unfold patchManyCandidate, updateCandidate;
    rewrite !bind_assoc_run; apply Hstart; intros a; emits_auto.
Qed.

Lemma later_segments_no_reset request Entity setProps :
  Forall (λ f : jsval → M (World:=World) jsval,
            ∀ x, emits (λ e, ev_method e ≠ MResetReadOnly) (f x))
         (tail (patchManySegments request Entity setProps)).
Proof.
  unfold patchManySegments.
  destruct (Entity_shouldUpdate Entity) as [g|]; simpl;
    repeat constructor; intros x; emits_auto.
Qed.

(** A round of first segments reconciles the records one by one, in their
    order. *)
Lemma round_reconciles b (f : jsval → M (World:=World) jsval) :
  (∀ x st, ∃ r evs,
     (f x st).2.2 = (st.2 ++ Event MResetReadOnly [b; x] r :: evs)%list
     ∧ Forall (λ e, ev_method e ≠ MResetReadOnly) evs) →
  ∀ records rejected st, ∃ evs,
    (round f (Some <$> records) rejected st).2.2 = (st.2 ++ evs)%list
    ∧ Forall2 (λ e x, ev_args e = [b; x]) (callsOf MResetReadOnly evs) records.
Proof.
  intros Hf records.
  induction records as [|x records IH]; intros rejected st.
  { exists []. split; [by rewrite app_nil_r | constructor]. }
  change (Some <$> x :: records) with (Some x :: (Some <$> records)).
  cbn [round]. rewrite run_bind. unfold settle at 1.
  destruct (Hf x st) as (r & evs1 & E1 & F1).
  destruct (f x st) as [o st1]. simpl in E1.
  assert (∀ rejected' (K : list (option jsval) * option jserror
                           → M (World:=World) (list (option jsval) * option jserror)),
            (∀ a, emits (λ _, False) (K a)) →
            ∃ evs,
              ((round f (Some <$> records) rejected' ≫= K) st1).2.2
              = (st.2 ++ evs)%list
              ∧ Forall2 (λ e x, ev_args e = [b; x])
                        (callsOf MResetReadOnly evs) (x :: records)) as Hrest.
  { intros rejected' K HK. rewrite run_bind.
    destruct (IH rejected' st1) as (evs2 & E2 & F2).
    destruct (round f (Some <$> records) rejected' st1) as [[a|e] st2];
      simpl in E2.
    - destruct (HK a st2) as (evs3 & E3 & F3).
      destruct evs3 as [|? ?]; [|by inversion F3].
      exists ((Event MResetReadOnly [b; x] r :: evs1) ++ evs2)%list.
      rewrite E3, E2, E1, app_nil_r, <- app_assoc. split; [done|].
      rewrite callsOf_app, callsOf_cons_same, (callsOf_none _ evs1 F1).
      by constructor.
    - exists ((Event MResetReadOnly [b; x] r :: evs1) ++ evs2)%list.
      cbn [fst snd]. rewrite E2, E1, <- app_assoc. split; [done|].
      rewrite callsOf_app, callsOf_cons_same, (callsOf_none _ evs1 F1).
      by constructor. }
  destruct o as [y|e]; apply Hrest; intros [? ?]; apply emits_ret.
Qed.

(** X19 (patch-many, reconciliation): when [find] returns an array and the
    endpoint's [set] does not throw, [resetReadOnly] is called once for
    every record found, in their order, with the request body and that
    record, whether or not the callback of another record throws. *)
Theorem patchMany_reconciles_every_record request spec Entity w filter w1 tr1
    records w2 setProps st3 :
  findFilter JSON_parse regexpCompiles request spec (w, [])
  = (Return filter, (w1, tr1)) →
  Entity_find Entity filter VUndefined w1 = (Return (VArr records), w2) →
  orStubObject MSpecSet (specSet spec) request
    (w2, (tr1 ++ [Event MFind [filter] (Return (VArr records))])%list)
  = (Return setProps, st3) →
  Forall2 (λ e x, ev_args e = [body request; x])
    (callsOf MResetReadOnly
       (trace (patchMany JSON_parse regexpCompiles request respondLog spec
                 Entity) w))
    records.
Proof.
  intros Hfilter Hfind Hset. unfold trace, run, patchMany.
  rewrite run_bind, Hfilter. rewrite run_bind. unfold call at 1.
  rewrite Hfind. cbn [truthy negb]. rewrite run_bind, Hset.
  destruct (emits_findFilter request spec (w, [])) as (evs0 & E0 & F0).
  rewrite Hfilter in E0. simpl in E0. subst tr1.
  destruct (emits_orStubObject (λ e, ev_method e ≠ MResetReadOnly) MSpecSet
              (specSet spec) request ltac:(by intros ?)
              (w2, (evs0 ++ [Event MFind [filter] (Return (VArr records))])%list))
    as (evsS & ES & FS).
  rewrite Hset in ES. simpl in ES.
  assert (callsOf MResetReadOnly st3.2 = []) as Hpre.
  { rewrite ES, !callsOf_app, (callsOf_none _ evsS FS), app_nil_r.
    rewrite (callsOf_none MResetReadOnly evs0); [done|].
    eapply Forall_impl; [exact F0|]. simpl. by intros e ->. }
  pose proof (callback_starts_with_reset request Entity setProps) as Hhead.
  pose proof (later_segments_no_reset request Entity setProps) as Htail.
  destruct (patchManySegments request Entity setProps) as [|f segments]
    eqn:Hsegments.
  { unfold patchManySegments in Hsegments.
    by destruct (Entity_shouldUpdate Entity). }
  specialize (Hhead f eq_refl). simpl in Htail.
  cbn [lockStep]. rewrite !bind_assoc_run, run_bind.
  destruct (round_reconciles (body request) f Hhead records None st3)
    as (evsR & ER & FR).
  destruct (round f (Some <$> records) None st3) as [[[slots rejected]|e] st4];
    simpl in ER.
  - match goal with
    | |- context [(?m ≫= ?K) st4] =>
        assert (emits (λ e, ev_method e ≠ MResetReadOnly) (m ≫= K)) as Hrest
    end.
    { apply emits_bind; [by apply emits_lockStep | intros [slots' [e|]]].
      - apply emits_throw.
      - cbv zeta. apply emits_bind; [apply emits_respondLog; by intros ?|].
        intros ?. destruct (Entity_didUpdate Entity) as [d|]; [|apply emits_ret].
        apply emits_bind; [|intros ?; apply emits_ret].
        apply emits_mapM. intros x. apply emits_call. by intros ?. }
    destruct (Hrest st4) as (evsT & ET & FT). rewrite ET, ER.
    by rewrite !callsOf_app, Hpre, (callsOf_none _ evsT FT), app_nil_r.
  - simpl. rewrite ER. by rewrite callsOf_app, Hpre.
Qed.

End Properties.

(** ** Instances on concrete requests *)


Lemma getMany_sort_witness :
  findCalledWithSort noJSON anyRegexp
    (requestOf ∅ {[ "sort" := VStr "-age" ]} VUndefined) plainSpec plainEntity ()
    {[ "age" := VNum (Int (-1)) ]}
  ∧ findCalledWithSort noJSON anyRegexp
      (requestOf ∅ {[ "sort" := VStr "age" ]} VUndefined) plainSpec plainEntity ()
      {[ "age" := VNum (Int 1) ]}
  ∧ findCalledWithSort noJSON anyRegexp
      (requestOf ∅ ∅ VUndefined) plainSpec plainEntity ()
      {[ "_id" := VNum (Int 1) ]}.
Proof.
  split; [|split].
  - apply (getMany_sort noJSON anyRegexp
             (requestOf ∅ {[ "sort" := VStr "-age" ]} VUndefined)
             plainSpec plainEntity () (VObj ∅) ((), [])); by vm_compute.
  - apply (getMany_sort noJSON anyRegexp
             (requestOf ∅ {[ "sort" := VStr "age" ]} VUndefined)
             plainSpec plainEntity () (VObj ∅) ((), [])); by vm_compute.
  - apply (getMany_sort noJSON anyRegexp (requestOf ∅ ∅ VUndefined)
             plainSpec plainEntity () (VObj ∅) ((), [])); by vm_compute.
Defined.

(** Without [query.sort] the sort handed to [Entity.find] is on [_id], not
    on [id]. *)
Lemma getMany_sort_absent_counterexample :
  query (requestOf ∅ ∅ VUndefined) !! "sort" = None
  ∧ ¬ findCalledWithSort noJSON anyRegexp
        (requestOf ∅ ∅ VUndefined) plainSpec plainEntity ()
        {[ "id" := VNum (Int 1) ]}.
Proof.
  split; [done|]. intros (filter & opts & r & Hcalls & Hsort).
  vm_compute in Hcalls. injection Hcalls as _ <- _.
  vm_compute in Hsort. discriminate.
Qed.

Lemma getMany_limit_witness :
  findCalledWithLimit noJSON anyRegexp
    (requestOf ∅ {[ "limit" := VStr "9999" ]} VUndefined) plainSpec plainEntity ()
    (Int 500)
  ∧ findCalledWithLimit noJSON anyRegexp
      (requestOf ∅ {[ "limit" := VStr "7" ]} VUndefined) plainSpec plainEntity ()
      (Int 7)
  ∧ findCalledWithLimit noJSON anyRegexp
      (requestOf ∅ ∅ VUndefined) plainSpec plainEntity () (Int 25).
Proof.
  split; [|split].
  - apply (getMany_limit noJSON anyRegexp
             (requestOf ∅ {[ "limit" := VStr "9999" ]} VUndefined)
             plainSpec plainEntity () {[ "_id" := VNum (Int 1) ]} (VObj ∅) ((), []));
      by vm_compute.
  - apply (proj1 (getMany_limit noJSON anyRegexp
             (requestOf ∅ {[ "limit" := VStr "7" ]} VUndefined)
             plainSpec plainEntity () {[ "_id" := VNum (Int 1) ]} (VObj ∅) ((), [])
             ltac:(by vm_compute) ltac:(by vm_compute)) "7");
      [by vm_compute | discriminate].
  - apply (getMany_limit noJSON anyRegexp (requestOf ∅ ∅ VUndefined)
             plainSpec plainEntity () {[ "_id" := VNum (Int 1) ]} (VObj ∅) ((), []));
      try by vm_compute. by left.
Defined.

(** With [query.limit] present as the empty string the limit handed to
    [Entity.find] is 25, not the minimum of [parseInt('')] and 500. *)
Lemma getMany_limit_empty_counterexample :
  query (requestOf ∅ {[ "limit" := VStr "" ]} VUndefined) !! "limit" = Some (VStr "")
  ∧ ¬ findCalledWithLimit noJSON anyRegexp
        (requestOf ∅ {[ "limit" := VStr "" ]} VUndefined) plainSpec plainEntity ()
        (mathMin (parseInt (VStr "")) (Int 500)).
Proof.
  split; [by vm_compute|]. intros (filter & opts & r & Hcalls & Hlimit).
  vm_compute in Hcalls. injection Hcalls as _ <- _.
  vm_compute in Hlimit. discriminate.
Qed.

Lemma express_status_inference_witness :
  (result (express getOne (rejecting (newError "who")) plainEntity emptyRawRequest) ()
     = Return (Some (MkError "who" VUndefined (VNum (Int 401))))
   ∧ result (express getOne (rejecting (specError 403 "no")) plainEntity
               emptyRawRequest) ()
     = Return (Some (specError 403 "no")))
  ∧ (result (express getOne (invalidating (newError "bad")) plainEntity
               emptyRawRequest) ()
     = Return (Some (MkError "bad" VUndefined (VNum (Int 400))))
   ∧ result (express getOne (invalidating (specError 422 "no")) plainEntity
               emptyRawRequest) ()
     = Return (Some (specError 422 "no"))).
Proof.
  split; split.
  - apply (proj1 (proj1 (express_status_inference getOne
             (rejecting (newError "who")) plainEntity emptyRawRequest ())
             _ (newError "who") () eq_refl eq_refl)).
    reflexivity.
  - apply (proj2 (proj1 (express_status_inference getOne
             (rejecting (specError 403 "no")) plainEntity emptyRawRequest ())
             _ (specError 403 "no") () eq_refl eq_refl)).
    reflexivity.
  - apply (proj1 (proj2 (express_status_inference getOne
             (invalidating (newError "bad")) plainEntity emptyRawRequest ())
             _ (newError "bad") () () (or_introl (conj eq_refl eq_refl))
             eq_refl eq_refl)).
    reflexivity.
  - apply (proj2 (proj2 (express_status_inference getOne
             (invalidating (specError 422 "no")) plainEntity emptyRawRequest ())
             _ (specError 422 "no") () () (or_introl (conj eq_refl eq_refl))
             eq_refl eq_refl)).
    reflexivity.
Defined.

(** An error thrown by [authenticate] with the status 0 carries a status,
    and is not handed to [next] as it is: it is replaced by one with
    status 401. *)
Lemma express_falsy_status_counterexample :
  status (specError 0 "offline") ≠ VUndefined
  ∧ result (express getOne (rejecting (specError 0 "offline")) plainEntity
              emptyRawRequest) ()
    ≠ Return (Some (specError 0 "offline")).
Proof. split; [done|]. vm_compute. discriminate. Qed.

(** A query with every kind of value. *)
Lemma filterConditions_translation_witness :
  let q : gmap string jsval :=
    <["name" := VStr "/^a/i"]> (<["active" := VStr "true"]>
    (<["gone" := VStr "undefined"]> (<["city" := VStr "Oslo"]>
    (<["limit" := VStr "5"]> (<["skipped" := VUndefined]> ∅))))) in
  (∃ conditions,
     filterConditions noJSON anyRegexp q = Return (VObj conditions)
     ∧ ∀ k, conditions !! k
            = if isReserved k then None else q !! k ≫= specTranslate)
  ∧ filterConditions (λ v, Return v) anyRegexp {[ "q" := VStr "{}"; "name" := VStr "x" ]}
    = Return (VStr "{}").
Proof.
  intros q. split.
  - apply (proj2 (filterConditions_translation noJSON anyRegexp q));
      [by vm_compute|].
    unfold q, translatable. apply map_Forall_insert_2.
    { intros _. right. exists "/^a/i". split; [done|]. intros src fl Hs.
      vm_compute in Hs. injection Hs as <- <-. split; [simpl; lia | done]. }
    repeat (apply map_Forall_insert_2;
      [ intros _; first
          [ by left
          | right; eexists; split; [done|]; intros src fl Hs;
            vm_compute in Hs; discriminate ] |]).
    apply map_Forall_empty.
  - etrans.
    + apply (proj1 (filterConditions_translation (λ v, Return v) anyRegexp
                      {[ "q" := VStr "{}"; "name" := VStr "x" ]})).
      by vm_compute.
    + by vm_compute.
Defined.

(** A query whose [q] is present but empty is translated key by key:
    [JSON.parse] is not applied and the other keys are not ignored. *)
Lemma filterConditions_empty_q_counterexample :
  let q : gmap string jsval := {[ "q" := VStr ""; "name" := VStr "x" ]} in
  q !! "q" = Some (VStr "")
  ∧ filterConditions noJSON anyRegexp q ≠ noJSON (getProp q "q")
  ∧ filterConditions noJSON anyRegexp q = Return (VObj {[ "name" := VStr "x" ]}).
Proof.
  intros q. split; [by vm_compute|]. split; [by vm_compute|].
  by vm_compute.
Qed.

(** A delimited pattern with two flags is compiled with the last one only. *)
Example filterConditions_two_flags :
  filterConditions noJSON anyRegexp {[ "name" := VStr "/ab/gi" ]}
  = Return (VObj {[ "name" := VObj {[ "$in" := VArr [VRegExp "ab" "i"] ]} ]}).
Proof. by vm_compute. Qed.

(** A JSON-Patch the validator rejects is applied and stored. *)
Example patchOne_invalid_patch_stored :
  let request := requestOf {[ "entityId" := VStr "42" ]} ∅ badPatch in
  let validate := λ _ _ : jsval, Some unresolvable in
  let apply := λ _ _ : jsval, Return (widgetPatched, widgetPatched) in
  result (patchOne validate apply request respondLog plainSpec (storedEntity widget)) ()
    = Return VUndefined
  ∧ callsOf MUpdateOne
      (trace (patchOne validate apply request respondLog plainSpec
                (storedEntity widget)) ())
    = [Event MUpdateOne [widgetPatched] (Return widgetPatched)].
Proof. by vm_compute. Qed.

Lemma patchMany_nothing_matched_witness :
  let request := requestOf ∅ ∅ (VObj {[ "name" := VStr "b" ]}) in
  run (patchMany noJSON anyRegexp request respondLog plainSpec
         (exampleEntity VNull VNull None)) ()
    = (Return VUndefined,
       ((), [Event MFind [VObj ∅] (Return VNull);
             Event MRespond [status200; VUndefined] (Return VUndefined)]))
  ∧ callsOf MRespond
      (trace (patchMany noJSON anyRegexp request respondLog plainSpec plainEntity) ())
    = [Event MRespond [status200; VArr []] (Return VUndefined)]
  ∧ callsOf MUpdateOne
      (trace (patchMany noJSON anyRegexp request respondLog plainSpec plainEntity) ())
    = [].
Proof.
  intros request. split; [|split].
  - apply (proj1 (patchMany_nothing_matched noJSON anyRegexp request plainSpec
                    (exampleEntity VNull VNull None) () (VObj ∅) () [] VNull ()
                    ltac:(by vm_compute) ltac:(by vm_compute))).
    by vm_compute.
  - apply (proj2 (patchMany_nothing_matched noJSON anyRegexp request plainSpec
                    plainEntity () (VObj ∅) () [] (VArr []) ()
                    ltac:(by vm_compute) ltac:(by vm_compute))
             eq_refl (VObj ∅) ((), [Event MFind [VObj ∅] (Return (VArr []))])).
    by vm_compute.
  - apply (proj2 (patchMany_nothing_matched noJSON anyRegexp request plainSpec
                    plainEntity () (VObj ∅) () [] (VArr []) ()
                    ltac:(by vm_compute) ltac:(by vm_compute))
             eq_refl (VObj ∅) ((), [Event MFind [VObj ∅] (Return (VArr []))])).
    by vm_compute.
Defined.

(** When the filter matches no record, [find] returns the empty array and
    [patchMany] responds with a body, the empty array. *)
Lemma patchMany_empty_body_counterexample :
  let request := requestOf ∅ ∅ (VObj {[ "name" := VStr "b" ]}) in
  Entity_find plainEntity (VObj ∅) VUndefined () = (Return (VArr []), ())
  ∧ callsOf MRespond
      (trace (patchMany noJSON anyRegexp request respondLog plainSpec plainEntity) ())
    ≠ [Event MRespond [status200; VUndefined] (Return VUndefined)].
Proof. split; [done|]. vm_compute. discriminate. Qed.

(** A replace whose body and whose [set] result both carry an id. *)
Lemma update_id_from_url_witness :
  let request :=
    requestOf {[ "entityId" := VStr "42" ]} ∅
              (VObj {[ "id" := VStr "evil"; "name" := VStr "b" ]}) in
  let spec := settingSpec (VObj {[ "id" := VStr "other" ]}) in
  Forall (forcedId (storedEntity widget) (getProp (urlParams request) "entityId"))
         (trace (putOne request respondLog spec (storedEntity widget)) ())
  ∧ callsOf MReplaceOne
      (trace (putOne request respondLog spec (storedEntity widget)) ())
    = [Event MReplaceOne [VObj {[ "id" := VStr "42"; "name" := VStr "b" ]}]
             (Return (VObj {[ "id" := VStr "42"; "name" := VStr "b" ]}))].
Proof.
  intros request spec. split.
  - apply (proj1 (update_id_from_url (λ _ _, None) (λ d _, Return (d, d))
                    request spec (storedEntity widget) ())).
  - by vm_compute.
Defined.



(** Membership in a trace that evaluates to an explicit list. *)
Ltac in_trace :=
  vm_compute; repeat first [apply list_elem_of_here | apply list_elem_of_further].

(** Every guard forbidding: no handler reaches its storage call. *)
Lemma guard_rejection_prevents_mutation_witness :
  let request :=
    requestOf {[ "entityId" := VStr "42" ]} ∅ (VObj {[ "name" := VStr "b" ]}) in
  let forbidden := specError 403 "forbidden" in
  let Entity := guardedEntity widget forbidden in
  let created := VObj {[ "name" := VStr "b" ]} in
  let updated := VObj {[ "id" := VStr "42"; "name" := VStr "b" ]} in
  (rejectedBy MShouldCreate MCreateOne
     (trace (postOne request respondLog plainSpec Entity) ())
     created (requestVal request) forbidden
   ∧ validatedBefore (trace (postOne request respondLog plainSpec Entity) ())
       (withPlaceholderId created))
  ∧ (rejectedBy MShouldUpdate MReplaceOne
       (trace (putOne request respondLog plainSpec Entity) ())
       updated (requestVal request) forbidden
     ∧ validatedBefore (trace (putOne request respondLog plainSpec Entity) ())
         updated)
  ∧ (rejectedBy MShouldUpdate MUpdateOne
       (trace (patchOne (λ _ _, None) (λ d _, Return (d, d)) request respondLog
                 plainSpec Entity) ())
       updated (requestVal request) forbidden
     ∧ validatedBefore
         (trace (patchOne (λ _ _, None) (λ d _, Return (d, d)) request respondLog
                   plainSpec Entity) ())
         updated)
  ∧ (rejectedBy MShouldUpdate MUpdateOne
       (trace (patchManyRecord request Entity (VObj ∅) widget) ())
       updated (requestVal request) forbidden
     ∧ validatedBefore (trace (patchManyRecord request Entity (VObj ∅) widget) ())
         updated)
  ∧ rejectedBy MShouldDelete MDeleteOne
      (trace (deleteOne request respondLog plainSpec Entity) ())
      widget (requestVal request) forbidden.
Proof.
  intros request forbidden Entity created updated.
  split; [|split; [|split; [|split]]].
  - apply (guard_rejection_prevents_mutation (λ _ _, None) (λ d _, Return (d, d))
             request plainSpec Entity () created (requestVal request) forbidden).
    in_trace.
  - apply (guard_rejection_prevents_mutation (λ _ _, None) (λ d _, Return (d, d))
             request plainSpec Entity () updated (requestVal request) forbidden).
    in_trace.
  - apply (guard_rejection_prevents_mutation (λ _ _, None) (λ d _, Return (d, d))
             request plainSpec Entity () updated (requestVal request) forbidden).
    in_trace.
  - apply (guard_rejection_prevents_mutation (λ _ _, None) (λ d _, Return (d, d))
             request plainSpec Entity () updated (requestVal request) forbidden).
    in_trace.
  - apply (guard_rejection_prevents_mutation (λ _ _, None) (λ d _, Return (d, d))
             request plainSpec Entity () widget (requestVal request) forbidden).
    in_trace.
Defined.

Example regexpSyntax_ex1 : regexpSyntax "/ab/c/gi" = Some ("ab/c", VStr "i").
Proof. vm_compute. reflexivity. Qed.
Example regexpSyntax_ex2 : regexpSyntax "/ab/c" = None.
Proof. vm_compute. reflexivity. Qed.
Example regexpSyntax_ex3 : regexpSyntax "//" = Some ("", VUndefined).
Proof. vm_compute. reflexivity. Qed.
Example parseInt_ex1 : parseInt (VStr "9999") = Int 9999.
Proof. vm_compute. reflexivity. Qed.
Example parseInt_ex2 : parseInt (VNum (Int 25)) = Int 25.
Proof. vm_compute. reflexivity. Qed.
Example parseInt_ex3 : parseInt (VStr " -0x1fz") = Int (-31).
Proof. vm_compute. reflexivity. Qed.
Example parseInt_ex4 : parseInt (VStr "") = NaN.
Proof. vm_compute. reflexivity. Qed.
Example toString_ex1 : toString (VArr [VStr "a"; VNull; VNum (Int (-3))]) = "a,,-3".
Proof. vm_compute. reflexivity. Qed.

(** ** Instances of the further properties *)

Lemma exportHAL_collection_witness :
  lastChar "http://api" ≠ "/"
  ∧ let name := toString (jsOr (VStr "widgets") (VStr "data")) in
    let exported :=
      VObj (<["_embedded" := VObj {[ name := VArr [widget; gadget] ]}]>
           (<["count" := VNum (Int (Z.of_nat (length [widget; gadget])))]>
           (<["_links" := selfLink ("http://api" ++ "/" ++ name ++ "/")]> ∅))) in
    exportHAL "http://api" (VStr "widgets") (VArr [widget; gadget])
    = Return exported
    ∧ exportHAL ("http://api" ++ "/") (VStr "widgets") (VArr [widget; gadget])
      = Return exported.
Proof.
  split; [by vm_compute|].
  apply (exportHAL_collection "http://api" (VStr "widgets") [widget; gadget]).
  by vm_compute.
Defined.

Lemma getOne_exportHAL_missing_witness :
  result (getOne renameRequest respondLog plainSpec (halEntity VNull (VArr []))) ()
  = Throw cannotRead
  ∧ callsOf MRespond
      (trace (getOne renameRequest respondLog plainSpec
                (halEntity VNull (VArr []))) ())
    = [].
Proof.
  apply (getOne_exportHAL_missing renameRequest plainSpec
           (halEntity VNull (VArr [])) () "http://api" (VStr "widgets") VNull ()).
  - by vm_compute.
  - reflexivity.
  - by left.
  - reflexivity.
Defined.

Lemma missing_record_stops_handler_witness :
  let entityId := getProp (urlParams renameRequest) "entityId" in
  let stopped :=
    (Throw (A:=jsval) notFound,
     ((), [Event MFindById [entityId] (Return VNull)])) in
  run (putOne renameRequest respondLog plainSpec plainEntity) () = stopped
  ∧ run (patchOne noPatchErrors applyNothing renameRequest respondLog plainSpec
           plainEntity) () = stopped
  ∧ run (deleteOne renameRequest respondLog plainSpec plainEntity) () = stopped.
Proof.
  apply (missing_record_stops_handler noPatchErrors applyNothing renameRequest
           plainSpec plainEntity () VNull ()); reflexivity.
Defined.

Lemma express_failed_check_stops_witness :
  run (express getOne (rejecting (newError "who")) plainEntity emptyRawRequest) ()
  = (Return (Some (forwarded 401 (newError "who"))),
     ((), [Event MAuthenticate [requestVal (requestView emptyRawRequest)]
                 (Throw (newError "who"));
           nextEvent (Some (forwarded 401 (newError "who")))]))
  ∧ run (express getOne (invalidating (newError "bad")) plainEntity
           emptyRawRequest) ()
    = (Return (Some (forwarded 400 (newError "bad"))),
       ((), ([] ++ [Event MValidate [requestVal (requestView emptyRawRequest)]
                          (Throw (newError "bad"));
                    nextEvent (Some (forwarded 400 (newError "bad")))])%list)).
Proof.
  split.
  - apply (proj1 (express_failed_check_stops getOne (rejecting (newError "who"))
                    plainEntity emptyRawRequest ())
             (λ _, throws (newError "who")) (newError "who") ());
      reflexivity.
  - apply (proj2 (express_failed_check_stops getOne
                    (invalidating (newError "bad")) plainEntity
                    emptyRawRequest ())
             (λ _, throws (newError "bad")) (newError "bad") () () []);
      [by left | reflexivity | reflexivity].
Defined.

Lemma express_operation_outcome_witness :
  run (express getOne plainSpec plainEntity emptyRawRequest) ()
  = (Return (Some (specError 400 "Entity id is required.")),
     ((), ([] ++ [nextEvent (Some (specError 400 "Entity id is required."))])%list))
  ∧ run (express getOne plainSpec (storedEntity widget) rawRequest42) ()
    = (Return None,
       ((), ([Event MFindById [VStr "42"] (Return widget);
              Event MResJson [status200; widget] (Return VUndefined)]
             ++ [nextEvent None])%list)).
Proof.
  split.
  - apply (proj1 (express_operation_outcome getOne plainSpec plainEntity
                    emptyRawRequest () VUndefined ((), []) () []
                    ltac:(by vm_compute))).
    by vm_compute.
  - apply (proj2 (express_operation_outcome getOne plainSpec
                    (storedEntity widget) rawRequest42 () VUndefined ((), []) ()
                    [Event MFindById [VStr "42"] (Return widget);
                     Event MResJson [status200; widget] (Return VUndefined)]
                    ltac:(by vm_compute)) VUndefined).
    by vm_compute.
Defined.

Lemma getMany_paging_bounds_witness :
  (∃ opts r,
     callsOf MFind
       (trace (getMany noJSON anyRegexp pagedRequest respondLog plainSpec
                 plainEntity) ())
     = [Event MFind [VObj {[ "owner" := VStr "you"; "name" := VStr "a" ]};
                     VObj opts] r]
     ∧ opts !! "skip"
       = Some (VNum (orZero (parseInt (getProp (query pagedRequest) "offset"))))
     ∧ opts !! "limit"
       = Some (VNum (capped (parseInt (jsOr (getProp (query pagedRequest) "limit")
                                            (VNum (Int 25)))))))
  ∧ orZero (parseInt (getProp (query pagedRequest) "offset")) = Int 10
  ∧ capped (parseInt (jsOr (getProp (query pagedRequest) "limit")
                           (VNum (Int 25)))) = Int 500.
Proof.
  split; [|by vm_compute].
  apply (getMany_paging_bounds noJSON anyRegexp pagedRequest plainSpec
           plainEntity () {[ "_id" := VNum (Int 1) ]}
           (VObj {[ "owner" := VStr "you"; "name" := VStr "a" ]}) ((), []));
    by vm_compute.
Defined.

Lemma endpoint_conditions_win_witness :
  ∃ m, endpointOver (VObj {[ "owner" := VStr "me" ]})
         (VObj {[ "owner" := VStr "you"; "name" := VStr "a" ]}) m
       ∧ (∃ opts r,
            callsOf MFind
              (trace (getMany noJSON anyRegexp pagedRequest respondLog
                        (queryingSpec (VObj {[ "owner" := VStr "me" ]}))
                        plainEntity) ())
            = [Event MFind [VObj m; opts] r])
       ∧ (∃ r,
            callsOf MFind
              (trace (patchMany noJSON anyRegexp pagedRequest respondLog
                        (queryingSpec (VObj {[ "owner" := VStr "me" ]}))
                        plainEntity) ())
            = [Event MFind [VObj m] r]).
Proof.
  apply (endpoint_conditions_win noJSON anyRegexp pagedRequest
           (queryingSpec (VObj {[ "owner" := VStr "me" ]})) plainEntity ()
           {[ "_id" := VNum (Int 1) ]}
           (VObj {[ "owner" := VStr "you"; "name" := VStr "a" ]})
           (λ _, returns (VObj {[ "owner" := VStr "me" ]}))
           (VObj {[ "owner" := VStr "me" ]}) ());
    [by vm_compute | by vm_compute | reflexivity | reflexivity].
Defined.

Lemma getMany_exports_every_entity_witness :
  Forall2 (λ e x, ev_args e = [x])
    (callsOf MExportOne
       (trace (getMany noJSON anyRegexp pagedRequest respondLog plainSpec
                 (halEntity widget (VArr [widget; gadget]))) ()))
    [widget; gadget].
Proof.
  apply (getMany_exports_every_entity noJSON anyRegexp pagedRequest plainSpec
           (halEntity widget (VArr [widget; gadget])) ()
           {[ "_id" := VNum (Int 1) ]}
           (VObj {[ "owner" := VStr "you"; "name" := VStr "a" ]}) () []
           [widget; gadget] ()
           (exportHALHook "http://api" (VStr "widgets")));
    [by vm_compute | by vm_compute | reflexivity | reflexivity | reflexivity].
Defined.

Lemma postOne_candidate_witness :
  let setProps := VObj {[ "owner" := VStr "me" ]} in
  let c := createCandidate (body renameRequest) setProps in
  let tr := trace (postOne renameRequest respondLog (settingSpec setProps)
                     plainEntity) () in
  ((Forall (createEvent (VObj c)) tr
    ∧ ∃ r, Event MAssertValid [withPlaceholderId (VObj c); invalidProps] r ∈ tr)
   ∧ c !! "_embedded" = None ∧ c !! "_links" = None
   ∧ (∀ k v, k ≠ "_embedded" → k ≠ "_links" →
             ownProps setProps !! k = Some v →
             c !! k = if isUndefined v then None else Some v)
   ∧ (∀ v, ownProps setProps !! "id" = None →
           ownProps (body renameRequest) !! "id" = Some v → v ≠ VUndefined →
           c !! "id" = Some v))
  ∧ c = {[ "name" := VStr "c"; "owner" := VStr "me" ]}.
Proof.
  intros setProps c tr. split; [|by vm_compute].
  apply (postOne_candidate renameRequest (settingSpec setProps) plainEntity ()
           setProps ()); reflexivity.
Defined.

Lemma filterConditions_rejects_non_string_witness :
  ∃ e, filterConditions noJSON anyRegexp (query repeatedRequest) = Throw e.
Proof.
  apply (filterConditions_rejects_non_string noJSON anyRegexp
           (query repeatedRequest) "tag" (VArr [VStr "a"; VStr "b"]));
    by vm_compute.
Defined.

Lemma filterConditions_keys_witness :
  ∃ conditions,
    VObj {[ "owner" := VStr "you"; "name" := VStr "a" ]} = VObj conditions
    ∧ ∀ k, is_Some (conditions !! k)
           ↔ isReserved k = false ∧ ∃ s, query pagedRequest !! k = Some (VStr s).
Proof.
  apply (filterConditions_keys noJSON anyRegexp (query pagedRequest)
           (VObj {[ "owner" := VStr "you"; "name" := VStr "a" ]}));
    by vm_compute.
Defined.

Lemma untranslatable_query_stops_witness :
  run (getMany noJSON anyRegexp repeatedRequest respondLog plainSpec
         (storedEntity widget)) ()
  = (Throw (match sortOf (query repeatedRequest) with
            | Throw e' => e'
            | Return _ => newError "query[prop].match is not a function"
            end), ((), []))
  ∧ run (patchMany noJSON anyRegexp repeatedRequest respondLog plainSpec
           (storedEntity widget)) ()
    = (Throw (newError "query[prop].match is not a function"), ((), [])).
Proof.
  apply (untranslatable_query_stops noJSON anyRegexp repeatedRequest plainSpec
           (storedEntity widget) ()
           (newError "query[prop].match is not a function")).
  by vm_compute.
Defined.

Lemma filterConditions_as_earlier_witness :
  filterConditions noJSON anyRegexp {[ "name" := VStr "/^a/i" ]}
  = Earlier.filterConditions anyRegexp {[ "name" := VStr "/^a/i" ]}.
Proof.
  apply (filterConditions_as_earlier noJSON anyRegexp {[ "name" := VStr "/^a/i" ]}).
  intros k [v Hk]. destruct (decide (k = "name")) as [->|Hne]; [reflexivity|].
  by rewrite lookup_singleton_ne in Hk.
Defined.

Lemma patchOne_object_body_as_putOne_witness :
  run (patchOne noPatchErrors applyNothing renameRequest respondLog plainSpec
         (storedEntity widget)) ()
  = let r := run (putOne renameRequest respondLog plainSpec
                    (withReplaceOne (storedEntity widget)
                       (Entity_updateOne (storedEntity widget)))) () in
    (r.1, (r.2.1, asUpdate <$> r.2.2)).
Proof.
  apply (patchOne_object_body_as_putOne noPatchErrors applyNothing renameRequest
           plainSpec (storedEntity widget) ()).
  reflexivity.
Defined.

Lemma patchMany_reconciles_every_record_witness :
  Forall2 (λ e x, ev_args e = [body renameRequest; x])
    (callsOf MResetReadOnly
       (trace (patchMany noJSON anyRegexp renameRequest respondLog plainSpec
                 twoStored) ()))
    [widget; gadget].
Proof.
  apply (patchMany_reconciles_every_record noJSON anyRegexp renameRequest
           plainSpec twoStored () (VObj ∅) () [] [widget; gadget] () (VObj ∅)
           ((), [Event MFind [VObj ∅] (Return (VArr [widget; gadget]))]));
    by vm_compute.
Defined.
